(** * Calculator microservice ([index.js]): validator and request handlers

    A shallow embedding of the Express service of [index.js] and of the part
    of the JavaScript platform it runs on (IEEE-754 doubles, [parseFloat],
    [Number.prototype.toString], the regular expression [/\d+\.\d+/], the
    winston logger), followed by the properties of the validator
    [handleErrors] and of the seven route handlers. *)

From Stdlib Require Import ZArith List String Ascii Bool Lia.
From Stdlib Require Import Floats.SpecFloat.
Import ListNotations.

Local Open Scope string_scope.
Local Open Scope Z_scope.

(* ================================================================== *)
(** * The JavaScript platform                                           *)
(* ================================================================== *)

Module JS.

(** ** Numbers: IEEE-754 binary64 *)

Definition prec : Z := 53.
Definition emax : Z := 1024.

(** A JavaScript Number.  [S754_nan] is the single NaN value of the
    language, [S754_zero true] is [-0]. *)
Definition number : Type := spec_float.

Definition NaN : number := S754_nan.
Definition Infinity : number := S754_infinity false.
Definition pos_zero : number := S754_zero false.
Definition neg_zero : number := S754_zero true.

(** [F(z)]: the double nearest to the integer [z] (ties to even). *)
Definition of_Z (z : Z) : number := binary_normalize prec emax z 0 false.

(** [Number.MAX_SAFE_INTEGER] is [2^53 - 1], [Number.MIN_SAFE_INTEGER] its
    opposite. *)
Definition MAX_SAFE_INTEGER : number := S754_finite false 9007199254740991 0.
Definition MIN_SAFE_INTEGER : number := S754_finite true 9007199254740991 0.

(** The global [isNaN] applied to a Number. *)
Definition isNaN (x : number) : bool :=
  match x with S754_nan => true | _ => false end.

(** [x < y], [x > y] and [x == y] on Numbers: false as soon as one side is
    NaN; the two zeros are equal. *)
Definition lt (x y : number) : bool := SFltb x y.
Definition gt (x y : number) : bool := SFltb y x.
Definition eq (x y : number) : bool := SFeqb x y.

(** [x + y], [x - y], [x * y], [x / y] and [Math.sqrt]. *)
Definition add (x y : number) : number := SFadd prec emax x y.
Definition sub (x y : number) : number := SFsub prec emax x y.
Definition mul (x y : number) : number := SFmul prec emax x y.
Definition div (x y : number) : number := SFdiv prec emax x y.
Definition Math_sqrt (x : number) : number := SFsqrt prec emax x.

(** [x % y] (Number::remainder): the sign of the dividend, truncating
    quotient, exact result. *)
Definition rem (n d : number) : number :=
  match n, d with
  | S754_nan, _ | _, S754_nan => S754_nan
  | S754_infinity _, _ => S754_nan
  | _, S754_infinity _ => n
  | _, S754_zero _ => S754_nan
  | S754_zero _, _ => n
  | S754_finite sn mn en, S754_finite _ md ed =>
      let e := Z.min en ed in
      let r := Z.rem (Z.shiftl (Zpos mn) (en - e)) (Z.shiftl (Zpos md) (ed - e)) in
      binary_normalize prec emax (cond_Zopp sn r) e sn
  end.

(** Whether a Number is an integral Number, and whether that integer is
    odd. *)
Definition is_integral (x : number) : bool :=
  match x with
  | S754_zero _ => true
  | S754_finite _ m e =>
      if 0 <=? e then true else Zpos m mod 2 ^ (- e) =? 0
  | _ => false
  end.

Definition is_odd_integral (x : number) : bool :=
  match x with
  | S754_finite _ m e =>
      if 0 <? e then false
      else (Zpos m mod 2 ^ (- e) =? 0) && Z.odd (Zpos m / 2 ^ (- e))
  | _ => false
  end.

(** The value [m * 2^e] and the candidate [m' * 2^e'] denote the same real. *)
Definition same_dyadic (m e m' e' : Z) : bool :=
  let f := Z.min e e' in
  m * 2 ^ (e - f) =? m' * 2 ^ (e' - f).

(** A power with an integral exponent [n] whose exact value is a double:
    [Some] of that double, [None] when the exact value is not representable
    (or [n] is not positive). *)
Definition exact_power (x : number) (n : Z) : option number :=
  match x with
  | S754_finite s m e =>
      if 0 <? n then
        let M := Zpos m ^ n in
        let E := e * n in
        let r := binary_normalize prec emax (cond_Zopp (s && Z.odd n) M) E false in
        match r with
        | S754_finite _ m' e' => if same_dyadic M E (Zpos m') e' then Some r else None
        | _ => None
        end
      else None
  | _ => None
  end.

(** The integer denoted by an integral finite Number. *)
Definition to_Z (x : number) : Z :=
  match x with
  | S754_finite s m e =>
      cond_Zopp s (if 0 <=? e then Zpos m * 2 ^ e else Zpos m / 2 ^ (- e))
  | _ => 0
  end.

Section Exponentiate.

(** [Math.pow] ends, for finite non-zero operands, in "an
    implementation-approximated Number value".  The approximation of the
    engine is a parameter; it is only consulted where the exact power is not
    a double. *)
Variable pow_approx : number -> number -> number.

Definition abs_cmp_one (x : number) : option comparison :=
  SFcompare (SFabs x) (S754_finite false 4503599627370496 (-52)).

(** [Math.pow(base, exponent)], following Number::exponentiate. *)
Definition Math_pow (base exponent : number) : number :=
  match exponent with
  | S754_nan => S754_nan
  | S754_zero _ => S754_finite false 4503599627370496 (-52)
  | S754_infinity se =>
      match base with
      | S754_nan => S754_nan
      | S754_infinity _ => if se then pos_zero else Infinity
      | S754_zero _ => if se then Infinity else pos_zero
      | S754_finite _ _ _ =>
          match abs_cmp_one base with
          | Some Gt => if se then pos_zero else Infinity
          | Some Lt => if se then Infinity else pos_zero
          | _ => S754_nan
          end
      end
  | S754_finite se _ _ =>
      match base with
      | S754_nan => S754_nan
      | S754_infinity sb =>
          if se then S754_zero (sb && is_odd_integral exponent)
          else S754_infinity (sb && is_odd_integral exponent)
      | S754_zero sb =>
          if se then S754_infinity (sb && is_odd_integral exponent)
          else S754_zero (sb && is_odd_integral exponent)
      | S754_finite sb _ _ =>
          if sb && negb (is_integral exponent) then S754_nan
          else if is_integral exponent then
            match exact_power base (to_Z exponent) with
            | Some r => r
            | None => pow_approx base exponent
            end
          else pow_approx base exponent
      end
  end.

End Exponentiate.

(** ** Strings: sequences of code units below 256 *)

Definition is_digit (c : ascii) : bool :=
  let n := Z.of_N (N_of_ascii c) in (48 <=? n) && (n <=? 57).

Definition digit_value (c : ascii) : Z := Z.of_N (N_of_ascii c) - 48.

Definition digit_char (d : Z) : ascii := ascii_of_N (Z.to_N (48 + d)).

(** WhiteSpace and LineTerminator code units: TAB, LF, VT, FF, CR, SP, NBSP. *)
Definition is_whitespace (c : ascii) : bool :=
  let n := Z.of_N (N_of_ascii c) in
  ((9 <=? n) && (n <=? 13)) || (n =? 32) || (n =? 160).

Fixpoint trim_start (s : string) : string :=
  match s with
  | String c t => if is_whitespace c then trim_start t else s
  | EmptyString => s
  end.

Fixpoint all_whitespace (s : string) : bool :=
  match s with
  | String c t => is_whitespace c && all_whitespace t
  | EmptyString => true
  end.

(** The leading DecimalDigits of a string (most significant first) and what
    follows them. *)
Fixpoint take_digits (s : string) : list Z * string :=
  match s with
  | String c t =>
      if is_digit c then
        let (ds, rest) := take_digits t in (digit_value c :: ds, rest)
      else ([], s)
  | EmptyString => ([], s)
  end.

Definition digits_value (ds : list Z) : Z :=
  fold_left (fun acc d => 10 * acc + d) ds 0.

(** The mathematical value of a literal: an infinity, or [m * 10^p] with
    [0 <= m]. *)
Variant decimal := DInfinity | DFinite (m p : Z).

(** ExponentPart, when one is present: the exponent and the rest; [(0, s)]
    otherwise (an [e] not followed by digits is not part of the literal). *)
Definition parse_exponent (s : string) : Z * string :=
  match s with
  | String c s1 =>
      if (Ascii.eqb c "e" || Ascii.eqb c "E")%bool then
        let '(neg, s2) :=
          match s1 with
          | String "+" t => (false, t)
          | String "-" t => (true, t)
          | _ => (false, s1)
          end in
        match take_digits s2 with
        | ([], _) => (0, s)
        | (ds, rest) => (cond_Zopp neg (digits_value ds), rest)
        end
      else (0, s)
  | EmptyString => (0, s)
  end.

(** The longest prefix that is a StrUnsignedDecimalLiteral:
    [Infinity], [digits . digits? exp?], [. digits exp?] or [digits exp?]. *)
Definition parse_unsigned (s : string) : option (decimal * string) :=
  if String.prefix "Infinity" s then
    Some (DInfinity, String.substring 8 (String.length s - 8) s)
  else
    let (ip, s1) := take_digits s in
    match s1 with
    | String "." s2 =>
        let (fp, s3) := take_digits s2 in
        match ip, fp with
        | [], [] => None
        | _, _ =>
            let (ex, s4) := parse_exponent s3 in
            Some (DFinite (digits_value (ip ++ fp)%list)
                          (ex - Z.of_nat (List.length fp)), s4)
        end
    | _ =>
        match ip with
        | [] => None
        | _ => let (ex, s4) := parse_exponent s1 in
               Some (DFinite (digits_value ip) ex, s4)
        end
    end.

(** The double nearest to [m * 10^p] for [0 < m] (ties to even, overflow to
    an infinity), with sign [neg]. *)
Definition round_decimal (neg : bool) (m : positive) (p : Z) : number :=
  if 0 <=? p then binary_round prec emax neg (Z.to_pos (Zpos m * 10 ^ p)) 0
  else SFdiv prec emax (S754_finite neg m 0)
                       (S754_finite false (Z.to_pos (10 ^ (- p))) 0).

(** StringNumericValue of a signed literal. *)
Definition decimal_value (neg : bool) (d : decimal) : number :=
  match d with
  | DInfinity => S754_infinity neg
  | DFinite (Zpos m) p => round_decimal neg m p
  | DFinite _ _ => S754_zero neg
  end.

(** The longest prefix that is a StrDecimalLiteral, as a Number, and the
    rest of the string. *)
Definition parse_decimal (s : string) : option (number * string) :=
  let '(neg, s1) :=
    match s with
    | String "+" t => (false, t)
    | String "-" t => (true, t)
    | _ => (false, s)
    end in
  match parse_unsigned s1 with
  | Some (d, rest) => Some (decimal_value neg d, rest)
  | None => None
  end.

(** [parseFloat] applied to a string. *)
Definition parseFloat_string (s : string) : number :=
  match parse_decimal (trim_start s) with
  | Some (x, _) => x
  | None => NaN
  end.

(** NonDecimalIntegerLiteral: [0x], [0o] and [0b] followed by digits of the
    radix, the whole string. *)
Definition radix_digit (radix : Z) (c : ascii) : option Z :=
  let n := Z.of_N (N_of_ascii c) in
  let d := if (48 <=? n) && (n <=? 57) then n - 48
           else if (97 <=? n) && (n <=? 102) then n - 87
           else if (65 <=? n) && (n <=? 70) then n - 55
           else radix in
  if d <? radix then Some d else None.

Fixpoint radix_value (radix : Z) (s : string) (acc : Z) : option Z :=
  match s with
  | EmptyString => Some acc
  | String c t =>
      match radix_digit radix c with
      | Some d => radix_value radix t (radix * acc + d)
      | None => None
      end
  end.

Definition parse_non_decimal (s : string) : option number :=
  match s with
  | String "0" (String c (String d t)) =>
      let body := String d t in
      let radix :=
        if (Ascii.eqb c "x" || Ascii.eqb c "X")%bool then 16
        else if (Ascii.eqb c "o" || Ascii.eqb c "O")%bool then 8
        else if (Ascii.eqb c "b" || Ascii.eqb c "B")%bool then 2
        else 0 in
      match radix_value radix body 0 with
      | Some v => if radix =? 0 then None else Some (of_Z v)
      | None => None
      end
  | _ => None
  end.

Fixpoint trim_end_aux (s : string) : string :=
  match s with
  | EmptyString => EmptyString
  | String c t => if all_whitespace s then EmptyString else String c (trim_end_aux t)
  end.

(** [ToNumber] applied to a string (StringToNumber): the whole string, up to
    surrounding white space, must be a numeric literal; the empty string is
    [+0]. *)
Definition StringToNumber (s : string) : number :=
  let t := trim_end_aux (trim_start s) in
  match t with
  | EmptyString => pos_zero
  | _ =>
      match parse_non_decimal t with
      | Some x => x
      | None =>
          match parse_decimal t with
          | Some (x, EmptyString) => x
          | _ => NaN
          end
      end
  end.

(** [s < y] for a string [s] and a Number [y] (IsLessThan: the string is
    converted with [ToNumber], the two Numbers are compared). *)
Definition string_lt_number (s : string) (y : number) : bool :=
  lt (StringToNumber s) y.

(** ** [Number.prototype.toString] (radix 10) *)

(** [m * 2^e < 10^n], on integers. *)
Definition below_pow10 (m e n : Z) : bool :=
  m * 2 ^ Z.max e 0 * 10 ^ Z.max (- n) 0 <? 2 ^ Z.max (- e) 0 * 10 ^ Z.max n 0.

(** The least [n], from [n] upwards, with [m * 2^e < 10^n]. *)
Fixpoint decimal_exponent_from (fuel : nat) (m e n : Z) : Z :=
  match fuel with
  | O => n
  | S f => if below_pow10 m e n then n else decimal_exponent_from f m e (n + 1)
  end.

Definition decimal_exponent (m e : Z) : Z :=
  decimal_exponent_from 700 m e (-324).

(** The rounding interval of the double [m * 2^e], in quarters of its unit in
    the last place: the decimals strictly between (or, for an even mantissa,
    at) these bounds are the ones that round to it.  Below a power of two the
    lower neighbour is half as far. *)
Definition interval_low (m e : Z) : Z :=
  if (m =? 2 ^ (prec - 1)) && (3 - emax - prec <? e) then 4 * m - 1 else 4 * m - 2.

Definition interval_high (m : Z) : Z := 4 * m + 2.

(** At [k] digits, with [n] the decimal exponent, [m * 2^e / 10^(n-k)] is
    [N / D]. *)
Definition scaled_num (m e p : Z) : Z := m * 2 ^ Z.max e 0 * 10 ^ Z.max (- p) 0.
Definition scaled_den (e p : Z) : Z := 2 ^ Z.max (- e) 0 * 10 ^ Z.max p 0.

(** [s * 10^p] rounds to [m * 2^e]. *)
Definition rounds_to (m e p s : Z) : bool :=
  let N := scaled_num m e p in
  let D := scaled_den e p in
  let x := 4 * m * D * s in
  if Z.even m then (interval_low m e * N <=? x) && (x <=? interval_high m * N)
  else (interval_low m e * N <? x) && (x <? interval_high m * N).

(** The candidate with [k] digits, if there is one: of the two multiples of
    [10^p] around the value, those that round to it; the nearer one when
    both do, the even one when they are equally near. *)
Definition candidate (m e p : Z) : option Z :=
  let N := scaled_num m e p in
  let D := scaled_den e p in
  let q := N / D in
  let r := N mod D in
  match rounds_to m e p q, rounds_to m e p (q + 1) with
  | true, true =>
      Some (match 2 * r ?= D with
            | Lt => q
            | Gt => q + 1
            | Eq => if Z.even q then q else q + 1
            end)
  | true, false => Some q
  | false, true => Some (q + 1)
  | false, false => None
  end.

(** The shortest decimal [s * 10^p] that rounds to [m * 2^e]: [k] counts the
    digits tried, [n] is the decimal exponent; seventeen digits always
    suffice. *)
Fixpoint shortest_from (fuel : nat) (m e n k : Z) : Z * Z :=
  match fuel with
  | O => (scaled_num m e (n - k) / scaled_den e (n - k), n - k)
  | S f =>
      match candidate m e (n - k) with
      | Some s => (s, n - k)
      | None => shortest_from f m e n (k + 1)
      end
  end.

Definition shortest_decimal (m e : Z) : Z * Z :=
  shortest_from 17 m e (decimal_exponent m e) 1.

(** The decimal digits of a natural number, most significant first. *)
Fixpoint digits_aux (fuel : nat) (z : Z) (acc : list Z) : list Z :=
  match fuel with
  | O => acc
  | S f => if z <? 10 then z :: acc else digits_aux f (z / 10) (z mod 10 :: acc)
  end.

Definition digits_of (z : Z) : list Z :=
  digits_aux (S (Z.to_nat (Z.log2 z))) z [].

Fixpoint strip_zeros (rev_ds : list Z) : list Z :=
  match rev_ds with
  | 0 :: t => strip_zeros t
  | _ => rev_ds
  end.

Fixpoint string_of_digits (ds : list Z) : string :=
  match ds with
  | [] => EmptyString
  | d :: t => String (digit_char d) (string_of_digits t)
  end.

Definition zeros (n : Z) : list Z := repeat 0 (Z.to_nat n).

(** Steps 6 to 10 of Number::toString for the digits [ds] (there are [k] of
    them) and the decimal exponent [n]. *)
Definition format_decimal (ds : list Z) (n : Z) : string :=
  let k := Z.of_nat (List.length ds) in
  if (k <=? n) && (n <=? 21) then
    string_of_digits (ds ++ zeros (n - k))%list
  else if (0 <? n) && (n <=? 21) then
    string_of_digits (firstn (Z.to_nat n) ds) ++ "." ++
    string_of_digits (skipn (Z.to_nat n) ds)
  else if (-6 <? n) && (n <=? 0) then
    "0." ++ string_of_digits (zeros (- n) ++ ds)%list
  else
    let ex := n - 1 in
    let tail := (if 0 <=? ex then "e+" else "e-") ++
                string_of_digits (digits_of (Z.abs ex)) in
    match ds with
    | [d] => string_of_digits [d] ++ tail
    | d :: rest => string_of_digits [d] ++ "." ++ string_of_digits rest ++ tail
    | [] => tail
    end.

Definition Number_toString (x : number) : string :=
  match x with
  | S754_nan => "NaN"
  | S754_zero _ => "0"
  | S754_infinity s => if s then "-Infinity" else "Infinity"
  | S754_finite s m e =>
      let (d, p) := shortest_decimal (Zpos m) e in
      let all := digits_of d in
      let ds := rev (strip_zeros (rev all)) in
      (if s then "-" else "") ++
      format_decimal ds (p + Z.of_nat (List.length all))
  end.

(** ** The regular expression [/\d+\.\d+/] *)

Fixpoint skip_digits (s : string) : string :=
  match s with
  | String c t => if is_digit c then skip_digits t else s
  | EmptyString => s
  end.

(** A match of [\d+\.\d+] starts at the head of the string. *)
Definition digits_dot_digits_here (s : string) : bool :=
  match s with
  | String c t =>
      is_digit c &&
      match skip_digits t with
      | String "." (String d _) => is_digit d
      | _ => false
      end
  | EmptyString => false
  end.

(** [/\d+\.\d+/.test(s)]: a match starts somewhere in the string. *)
Fixpoint digits_dot_digits_test (s : string) : bool :=
  match s with
  | String _ t => digits_dot_digits_here s || digits_dot_digits_test t
  | EmptyString => false
  end.

End JS.

(* ================================================================== *)
(** * The libraries: winston and Express                                *)
(* ================================================================== *)

Module Winston.

Variant level := error | info.

Record entry := { entry_level : level; entry_message : string }.

(** What each of the three transports of [logger] has received so far, oldest
    first: the console (every level), [logs/error.log] (level error only)
    and [logs/combined.log] (the custom format drops level error). *)
Record transports := {
  console : list entry;
  error_log : list entry;
  combined_log : list entry
}.

Definition empty : transports :=
  {| console := []; error_log := []; combined_log := [] |}.

Definition log (l : level) (msg : string) (t : transports) : transports :=
  let e := {| entry_level := l; entry_message := msg |} in
  {| console := (console t ++ [e])%list;
     error_log := match l with
                  | error => (error_log t ++ [e])%list
                  | info => error_log t
                  end;
     combined_log := match l with
                     | error => combined_log t
                     | info => (combined_log t ++ [e])%list
                     end |}.

End Winston.

Module Express.

(** A value of [req.query]: absent, a string, an array (a repeated
    parameter) or a nested object. *)
#[warnings="-register-all"]
Inductive qvalue :=
  | QUndefined
  | QString (s : string)
  | QArray (l : list qvalue)
  | QObject.

(** [ToString] on such a value; an array joins its elements with commas. *)
Fixpoint ToString (v : qvalue) : string :=
  match v with
  | QUndefined => "undefined"
  | QString s => s
  | QObject => "[object Object]"
  | QArray l =>
      (fix join (l : list qvalue) : string :=
         match l with
         | [] => ""
         | x :: t =>
             let sx := match x with QUndefined => "" | _ => ToString x end in
             match t with
             | [] => sx
             | _ => sx ++ "," ++ join t
             end
         end) l
  end.

Record request := { query : list (string * qvalue) }.

(** [req.query.name] *)
Fixpoint lookup (name : string) (q : list (string * qvalue)) : qvalue :=
  match q with
  | [] => QUndefined
  | (k, v) :: t => if String.eqb k name then v else lookup name t
  end.

(** The body handed to [res.json], before Express serialises it. *)
Variant json :=
  | JMessage (message : string)
  | JResult (result : JS.number).

Record response := { status : Z; body : json }.

(** [res.status(code).json(b)] and [res.json(b)] (status 200). *)
Definition status_json (code : Z) (b : json) : response :=
  {| status := code; body := b |}.
Definition send_json (b : json) : response := status_json 200 b.

(** The query string of a URL, for plain [name=value] pairs separated by
    [&] (no percent-decoding, no bracket syntax; a repeated name keeps its
    first value). *)
Fixpoint split_at (sep : ascii) (s : string) : string * option string :=
  match s with
  | EmptyString => (EmptyString, None)
  | String c t =>
      if Ascii.eqb c sep then (EmptyString, Some t)
      else let (a, b) := split_at sep t in (String c a, b)
  end.

Fixpoint split_all (fuel : nat) (sep : ascii) (s : string) : list string :=
  match fuel with
  | O => [s]
  | S f =>
      match split_at sep s with
      | (a, None) => [a]
      | (a, Some rest) => a :: split_all f sep rest
      end
  end.

Definition parse_pair (s : string) : string * qvalue :=
  match split_at "=" s with
  | (k, Some v) => (k, QString v)
  | (k, None) => (k, QString "")
  end.

Definition parse_url (url : string) : string * request :=
  match split_at "?" url with
  | (path, None) => (path, {| query := [] |})
  | (path, Some qs) =>
      (path, {| query := map parse_pair
                           (filter (fun p => negb (String.eqb p ""))
                                   (split_all (String.length qs) "&" qs)) |})
  end.

End Express.

(* ================================================================== *)
(** * [index.js]                                                        *)
(* ================================================================== *)

Import Express.

(** The state of the process: the logger and the global object, of which the
    program touches the property [n2] ([None]: not defined). *)
Record state := {
  logger : Winston.transports;
  global_n2 : option string
}.

(** Statements run in a state and leave a state. *)
Definition M (A : Type) : Type := state -> A * state.

Definition ret {A : Type} (a : A) : M A := fun st => (a, st).

Definition bind {A B : Type} (c : M A) (k : A -> M B) : M B :=
  fun st => let (a, st') := c st in k a st'.

Notation "x <- c ;; k" := (bind c (fun x => k))
  (at level 61, c at next level, right associativity).
Notation "c ;;; k" := (bind c (fun _ => k))
  (at level 61, right associativity).

Definition logger_error (msg : string) : M unit :=
  fun st => (tt, {| logger := Winston.log Winston.error msg (logger st);
                    global_n2 := global_n2 st |}).

Definition logger_info (msg : string) : M unit :=
  fun st => (tt, {| logger := Winston.log Winston.info msg (logger st);
                    global_n2 := global_n2 st |}).

(** [n2 = v]: the identifier is declared nowhere, so the assignment creates
    or overwrites the property [n2] of the global object. *)
Definition assign_n2 (v : string) : M unit :=
  fun st => (tt, {| logger := logger st; global_n2 := Some v |}).

(** A read of [n2].  The program reads it only after the assignment above,
    in the same call; the case [None] stands for the [ReferenceError] of a
    read that nothing preceded. *)
Definition read_n2 : M (option string) :=
  fun st => (global_n2 st, st).

(** What a call of [handleErrors] evaluates to: a Number, or [undefined]
    when the body ends without a [return]. *)
Variant value := VUndefined | VNumber (n : Z).

(** [v == n] for a Number literal [n]. *)
Definition loose_eq (v : value) (n : Z) : bool :=
  match v with
  | VNumber m => m =? n
  | VUndefined => false
  end.

Notation "v == n" := (loose_eq v n) (at level 70, no associativity).

Definition zero : JS.number := JS.pos_zero.

Definition handleErrors (operator : string) (num1 num2 : JS.number) : M value :=
  if JS.isNaN num1 || JS.isNaN num2 then
    logger_error "Invalid input: Input parameters are not numbers" ;;;
    ret (VNumber 1)
  else if String.eqb operator "/" || String.eqb operator "%" && JS.eq num2 zero then
    logger_error "Zero division: Division by 0 is not possible" ;;;
    ret (VNumber 2)
  else if JS.gt num1 JS.MAX_SAFE_INTEGER || JS.lt num1 JS.MIN_SAFE_INTEGER
          || JS.gt num2 JS.MAX_SAFE_INTEGER || JS.lt num2 JS.MIN_SAFE_INTEGER then
    logger_error "Range exceeded: Input parameters have exceeded min/max range limits" ;;;
    ret (VNumber 3)
  else if String.eqb operator "^" then
    assign_n2 (JS.Number_toString num2) ;;;
    n2 <- read_n2 ;;
    match n2 with
    | None => ret VUndefined
    | Some n2 =>
        if JS.lt num1 zero && JS.digits_dot_digits_test n2 then
          logger_error
            "Negative exponential error: Base is negative and exponent is a fraction" ;;;
          ret (VNumber 4)
        else if JS.eq num1 zero && JS.string_lt_number n2 zero
                && JS.digits_dot_digits_test n2 then
          logger_error
            "Zero exponential error: Base is 0 and exponent is a negative fraction" ;;;
          ret (VNumber 5)
        else ret VUndefined
    end
  else if String.eqb operator "sqrt" then
    if JS.lt num1 zero then
      logger_error "Negative square root: Input number is negative" ;;;
      ret (VNumber 6)
    else ret VUndefined
  else
    ret (VNumber 0).

Definition parseFloat (v : qvalue) : JS.number :=
  JS.parseFloat_string (ToString v).

Definition str : JS.number -> string := JS.Number_toString.

Definition get_add (req : request) : M response :=
  let num1 := lookup "num1" (query req) in
  let num2 := lookup "num2" (query req) in
  let num1 := parseFloat num1 in
  let num2 := parseFloat num2 in
  validate <- handleErrors "+" num1 num2 ;;
  if validate == 1 then
    ret (status_json 400 (JMessage "num1 and num2 must be numbers"))
  else if validate == 3 then
    ret (status_json 400 (JMessage "Either numbers are too large or too small"))
  else
    let result := JS.add num1 num2 in
    logger_info ("Addition: " ++ str num1 ++ " + " ++ str num2 ++ " = " ++ str result) ;;;
    ret (send_json (JResult result)).

Definition get_sub (req : request) : M response :=
  let num1 := lookup "num1" (query req) in
  let num2 := lookup "num2" (query req) in
  let num1 := parseFloat num1 in
  let num2 := parseFloat num2 in
  validate <- handleErrors "-" num1 num2 ;;
  if validate == 1 then
    ret (status_json 400 (JMessage "num1 and num2 must be numbers"))
  else if validate == 3 then
    ret (status_json 400 (JMessage "Either numbers are too large or too small"))
  else
    let result := JS.sub num1 num2 in
    logger_info ("Subtraction: " ++ str num1 ++ " - " ++ str num2 ++ " = " ++ str result) ;;;
    ret (send_json (JResult result)).

Definition get_mul (req : request) : M response :=
  let num1 := lookup "num1" (query req) in
  let num2 := lookup "num2" (query req) in
  let num1 := parseFloat num1 in
  let num2 := parseFloat num2 in
  validate <- handleErrors "*" num1 num2 ;;
  if validate == 1 then
    ret (status_json 400 (JMessage "num1 and num2 must be numbers"))
  else if validate == 3 then
    ret (status_json 400 (JMessage "Either numbers are too large or too small"))
  else
    let result := JS.mul num1 num2 in
    logger_info ("Multiplication: " ++ str num1 ++ " * " ++ str num2 ++ " = " ++ str result) ;;;
    ret (send_json (JResult result)).

Definition get_div (req : request) : M response :=
  let num1 := lookup "num1" (query req) in
  let num2 := lookup "num2" (query req) in
  let num1 := parseFloat num1 in
  let num2 := parseFloat num2 in
  validate <- handleErrors "/" num1 num2 ;;
  if validate == 1 then
    ret (status_json 400 (JMessage "num1 and num2 must be numbers"))
  else if validate == 2 then
    ret (status_json 400 (JMessage "Denominator cannot be 0 in division"))
  else if validate == 3 then
    ret (status_json 400 (JMessage "Either numbers are too large or too small"))
  else
    let result := JS.div num1 num2 in
    logger_info ("Division: " ++ str num1 ++ " / " ++ str num2 ++ " = " ++ str result) ;;;
    ret (send_json (JResult result)).

Section Server.

(** The engine's approximation of powers that are not doubles. *)
Variable pow_approx : JS.number -> JS.number -> JS.number.

Definition get_exp (req : request) : M response :=
  let num1 := lookup "num1" (query req) in
  let num2 := lookup "num2" (query req) in
  let num1 := parseFloat num1 in
  let num2 := parseFloat num2 in
  validate <- handleErrors "^" num1 num2 ;;
  if validate == 1 then
    ret (status_json 400 (JMessage "num1 and num2 must be numbers"))
  else if validate == 3 then
    ret (status_json 400 (JMessage "Either numbers are too large or too small"))
  else if validate == 4 then
    ret (status_json 400 (JMessage "If base is negative, exponent cannot be a fraction"))
  else if validate == 5 then
    ret (status_json 400 (JMessage "If base is 0, exponent cannot be a negative fraction"))
  else
    let result := JS.Math_pow pow_approx num1 num2 in
    logger_info ("Exponent: " ++ str num1 ++ " ^ " ++ str num2 ++ " = " ++ str result) ;;;
    ret (send_json (JResult result)).

Definition get_sqrt (req : request) : M response :=
  let num1 := lookup "num1" (query req) in
  let num1 := parseFloat num1 in
  validate <- handleErrors "sqrt" num1 zero ;;
  if validate == 1 then
    ret (status_json 400 (JMessage "num1 must be a number"))
  else if validate == 3 then
    ret (status_json 400 (JMessage "Numbers is too large or too small"))
  else if validate == 6 then
    ret (status_json 400 (JMessage "Square root of negative numbers is not supported"))
  else
    let result := JS.Math_sqrt num1 in
    logger_info ("Square root: " ++ str num1 ++ " = " ++ str result) ;;;
    ret (send_json (JResult result)).

Definition get_mod (req : request) : M response :=
  let num1 := lookup "num1" (query req) in
  let num2 := lookup "num2" (query req) in
  let num1 := parseFloat num1 in
  let num2 := parseFloat num2 in
  validate <- handleErrors "%" num1 num2 ;;
  if validate == 1 then
    ret (status_json 400 (JMessage "num1 and num2 must be numbers"))
  else if validate == 2 then
    ret (status_json 400 (JMessage "Denominator cannot be 0 in modulo"))
  else if validate == 3 then
    ret (status_json 400 (JMessage "Either numbers are too large or too small"))
  else
    let result := JS.rem num1 num2 in
    logger_info ("Modulo: " ++ str num1 ++ " % " ++ str num2 ++ " = " ++ str result) ;;;
    ret (send_json (JResult result)).

(** The routes registered with [app.get]. *)
Definition app_get (path : string) : option (request -> M response) :=
  if String.eqb path "/add" then Some get_add
  else if String.eqb path "/sub" then Some get_sub
  else if String.eqb path "/mul" then Some get_mul
  else if String.eqb path "/div" then Some get_div
  else if String.eqb path "/exp" then Some get_exp
  else if String.eqb path "/sqrt" then Some get_sqrt
  else if String.eqb path "/mod" then Some get_mod
  else None.

(** A GET request for [url]: the response of the route's handler, [None]
    when no route of this program matches. *)
Definition GET (url : string) : M (option response) :=
  let (path, req) := parse_url url in
  match app_get path with
  | Some handler => r <- handler req ;; ret (Some r)
  | None => ret None
  end.

(** The requests of a run, served one after the other: every handler is
    synchronous, so the event loop runs each to its end before the next. *)
Fixpoint serve (urls : list string) : M (list (option response)) :=
  match urls with
  | [] => ret []
  | url :: rest =>
      r <- GET url ;;
      rs <- serve rest ;;
      ret (r :: rs)
  end.

End Server.

(** The process once [app.listen] has called back. *)
Definition listening : state :=
  {| logger := Winston.log Winston.info
                 "Calculator microservice running on http://localhost:3000"
                 Winston.empty;
     global_n2 := None |}.

(** ** Vocabulary of the specification *)

(** Rule 1, NotANumber: one of the operands is NaN. *)
Definition not_a_number (num1 num2 : JS.number) : bool :=
  JS.isNaN num1 || JS.isNaN num2.

(** The magnitude of an operand exceeds [2^53 - 1] in either direction. *)
Definition out_of_range (x : JS.number) : bool :=
  JS.gt x JS.MAX_SAFE_INTEGER || JS.lt x JS.MIN_SAFE_INTEGER.

(** The state after [logger.error(msg)]. *)
Definition error_logged (msg : string) (st : state) : state :=
  snd (logger_error msg st).

(** A string free of the character [.], and a decimal digit. *)
Fixpoint dot_free (s : string) : bool :=
  match s with
  | EmptyString => true
  | String c t => negb (Ascii.eqb c ".") && dot_free t
  end.

Definition decimal_digit (d : Z) : Prop := 0 <= d <= 9.

(** A Number that is a binary64 value: canonical mantissa and exponent. *)
Definition is_double (x : JS.number) : bool := valid_binary JS.prec JS.emax x.

(** The step from [st] to [st'] is one record of level [l] and nothing
    else on the logger. *)
Definition logged (l : Winston.level) (st st' : state) : Prop :=
  exists msg, logger st' = Winston.log l msg (logger st).



(** A handler's response and final state show one record for the request:
    an error record under a 400 with a message, an info record under a 200
    with a result. *)
Definition one_record (out : response * state) (st : state) : Prop :=
  (status (fst out) = 400 /\ (exists m, body (fst out) = JMessage m) /\
   logged Winston.error st (snd out)) \/
  (status (fst out) = 200 /\ (exists x, body (fst out) = JResult x) /\
   logged Winston.info st (snd out)).

(** A Number that is neither NaN nor an infinity, and a response that is a
    400 with a message or carries such a Number. *)
Definition is_finite (x : JS.number) : bool :=
  match x with
  | S754_zero _ | S754_finite _ _ _ => true
  | S754_infinity _ | S754_nan => false
  end.

Definition finite_result (r : response) : Prop :=
  match body r with
  | JResult x => is_finite x = true
  | JMessage _ => status r = 400
  end.

(** An operand that got past the first three rules: a zero, or a finite
    double with a mantissa below [2^53] and a non-positive exponent. *)
Variant safe_operand : JS.number -> Prop :=
  | safe_zero s : safe_operand (S754_zero s)
  | safe_finite s m e :
      Zpos m < 2 ^ 53 -> e <= 0 -> is_double (S754_finite s m e) = true ->
      safe_operand (S754_finite s m e).


(** The operands a handler passes to the validator. *)
Definition operand (name : string) (req : request) : JS.number :=
  parseFloat (lookup name (query req)).

(* ================================================================== *)
(** * The platform on known values                                      *)
(* ================================================================== *)

Example parseFloat_values :
  map JS.parseFloat_string ["10"; "  -0.5"; "5."; ".5x"; "1e309"; "abc"; "-"; "undefined"; ""]
  = [S754_finite false 5629499534213120 (-49); S754_finite true 4503599627370496 (-53);
     S754_finite false 5629499534213120 (-50); S754_finite false 4503599627370496 (-53);
     S754_infinity false; S754_nan; S754_nan; S754_nan; S754_nan].
Proof. vm_compute. reflexivity. Qed.

Example parseFloat_rounds_to_nearest_even :
  JS.parseFloat_string "0.1" = S754_finite false 7205759403792794 (-56) /\
  JS.parseFloat_string "9007199254740993" = JS.of_Z 9007199254740992 /\
  JS.parseFloat_string "5e-324" = S754_finite false 1 (-1074) /\
  JS.parseFloat_string "2e-324" = JS.pos_zero.
Proof. vm_compute. auto. Qed.

Example Number_toString_values :
  map (fun s => JS.Number_toString (JS.parseFloat_string s))
      ["3"; "-2"; "0.5"; "100"; "1e21"; "123456789012345680000"; "0.000001"; "1e-7";
       "1.5e-7"; "5e-324"; "72057594037927936"; "-0"; "x"]
  = ["3"; "-2"; "0.5"; "100"; "1e+21"; "123456789012345680000"; "0.000001"; "1e-7";
     "1.5e-7"; "5e-324"; "72057594037927940"; "0"; "NaN"].
Proof. vm_compute. reflexivity. Qed.

Example arithmetic_values :
  JS.Number_toString (JS.add (JS.parseFloat_string "0.1") (JS.parseFloat_string "0.2"))
    = "0.30000000000000004" /\
  JS.Number_toString (JS.div (JS.of_Z 1) (JS.of_Z 3)) = "0.3333333333333333" /\
  JS.rem (JS.of_Z (-10)) (JS.of_Z 3) = JS.of_Z (-1) /\
  JS.rem (JS.of_Z (-9)) (JS.of_Z 3) = JS.neg_zero /\
  JS.Math_sqrt (JS.of_Z 2) = JS.parseFloat_string "1.4142135623730951" /\
  JS.Math_pow (fun _ _ => JS.NaN) (JS.of_Z (-2)) (JS.parseFloat_string "0.5") = JS.NaN.
Proof. vm_compute. repeat split. Qed.

(** The pattern is textual: the exponent [1e-7] is a fraction whose decimal
    form has no dot. *)
Example digits_dot_digits_values :
  map JS.digits_dot_digits_test ["0.5"; "-12.25"; "3"; "1e-7"; "1.5e-7"; "5."; ".5"]
  = [true; true; false; false; true; false; false].
Proof. reflexivity. Qed.

(* ================================================================== *)
(** * Properties of the validator                                       *)
(* ================================================================== *)

Local Ltac run :=
  unfold bind, ret, logger_error, logger_info, assign_n2, read_n2; simpl.

(** Each rule of [handleErrors], with the state it leaves. *)

Lemma handleErrors_rule1 operator num1 num2 st :
  not_a_number num1 num2 = true ->
  handleErrors operator num1 num2 st =
  (VNumber 1, error_logged "Invalid input: Input parameters are not numbers" st).
Proof.
  unfold not_a_number, handleErrors. intros ->. reflexivity.
Qed.

Lemma handleErrors_rule2 operator num1 num2 st :
  not_a_number num1 num2 = false ->
  String.eqb operator "/" || String.eqb operator "%" && JS.eq num2 zero = true ->
  handleErrors operator num1 num2 st =
  (VNumber 2, error_logged "Zero division: Division by 0 is not possible" st).
Proof.
  unfold not_a_number, handleErrors. intros -> ->. reflexivity.
Qed.

Lemma handleErrors_rule3 operator num1 num2 st :
  not_a_number num1 num2 = false ->
  String.eqb operator "/" || String.eqb operator "%" && JS.eq num2 zero = false ->
  out_of_range num1 || out_of_range num2 = true ->
  handleErrors operator num1 num2 st =
  (VNumber 3,
   error_logged "Range exceeded: Input parameters have exceeded min/max range limits" st).
Proof.
  unfold not_a_number, out_of_range, handleErrors. intros -> -> H.
  rewrite orb_assoc in H. rewrite H. reflexivity.
Qed.

(** Past the first three rules only the operator decides which branch runs. *)
Lemma handleErrors_past_rule3 operator num1 num2 st :
  not_a_number num1 num2 = false ->
  String.eqb operator "/" || String.eqb operator "%" && JS.eq num2 zero = false ->
  out_of_range num1 || out_of_range num2 = false ->
  handleErrors operator num1 num2 st =
  if String.eqb operator "^" then
    let n2 := JS.Number_toString num2 in
    let st' := {| logger := logger st; global_n2 := Some n2 |} in
    if JS.lt num1 zero && JS.digits_dot_digits_test n2 then
      (VNumber 4,
       error_logged
         "Negative exponential error: Base is negative and exponent is a fraction" st')
    else if JS.eq num1 zero && JS.string_lt_number n2 zero
            && JS.digits_dot_digits_test n2 then
      (VNumber 5,
       error_logged
         "Zero exponential error: Base is 0 and exponent is a negative fraction" st')
    else (VUndefined, st')
  else if String.eqb operator "sqrt" then
    if JS.lt num1 zero then
      (VNumber 6, error_logged "Negative square root: Input number is negative" st)
    else (VUndefined, st)
  else (VNumber 0, st).
Proof.
  unfold not_a_number, out_of_range, handleErrors. intros -> -> H.
  rewrite orb_assoc in H. rewrite H.
  destruct (String.eqb operator "^").
  - run.
    destruct (JS.lt num1 zero && _); [reflexivity|].
    destruct (JS.eq num1 zero && _ && _); reflexivity.
  - destruct (String.eqb operator "sqrt"); [|reflexivity].
    destruct (JS.lt num1 zero); reflexivity.
Qed.

(** The code returned does not depend on the state the call starts in. *)
Lemma handleErrors_code_state operator num1 num2 st st' :
  fst (handleErrors operator num1 num2 st) = fst (handleErrors operator num1 num2 st').
Proof.
  destruct (not_a_number num1 num2) eqn:H1.
  { now rewrite !handleErrors_rule1. }
  destruct (String.eqb operator "/" || String.eqb operator "%" && JS.eq num2 zero) eqn:H2.
  { now rewrite !handleErrors_rule2. }
  destruct (out_of_range num1 || out_of_range num2) eqn:H3.
  { now rewrite !handleErrors_rule3. }
  rewrite !handleErrors_past_rule3 by assumption. cbv zeta.
  repeat match goal with |- context [if ?b then _ else _] => destruct b end;
    reflexivity.
Qed.

(** The code of a call that got past rule 2 is never 2. *)
Lemma handleErrors_not2 operator num1 num2 st :
  not_a_number num1 num2 = false ->
  String.eqb operator "/" || String.eqb operator "%" && JS.eq num2 zero = false ->
  fst (handleErrors operator num1 num2 st) <> VNumber 2.
Proof.
  intros H1 H2.
  destruct (out_of_range num1 || out_of_range num2) eqn:H3.
  { rewrite handleErrors_rule3 by assumption. discriminate. }
  rewrite handleErrors_past_rule3 by assumption. cbv zeta.
  repeat match goal with |- context [if ?b then _ else _] => destruct b end;
    discriminate.
Qed.

Lemma not_a_number_false num1 num2 :
  JS.isNaN num1 = false -> JS.isNaN num2 = false -> not_a_number num1 num2 = false.
Proof. unfold not_a_number. now intros -> ->. Qed.

(** The handlers, read off the code the validator returned. *)

Lemma get_div_response req st :
  fst (get_div req st) =
  let num1 := operand "num1" req in
  let num2 := operand "num2" req in
  let validate := fst (handleErrors "/" num1 num2 st) in
  if validate == 1 then status_json 400 (JMessage "num1 and num2 must be numbers")
  else if validate == 2 then status_json 400 (JMessage "Denominator cannot be 0 in division")
  else if validate == 3 then
    status_json 400 (JMessage "Either numbers are too large or too small")
  else send_json (JResult (JS.div num1 num2)).
Proof.
  unfold get_div, operand, bind.
  destruct (handleErrors _ _ _ st) as [v st']. simpl.
  destruct v as [|n]; [reflexivity|]. simpl.
  destruct (n =? 1); [reflexivity|].
  destruct (n =? 2); [reflexivity|].
  destruct (n =? 3); reflexivity.
Qed.

(** C1: for operands that are both numbers, the validator answers code 2
    (DivisionByZero) exactly when the operator is divide, whatever the second
    operand, or the operator is modulo and the second operand equals zero;
    every [/div] request with two numeric operands gets the 400
    division-by-zero response. *)
Theorem division_by_zero_flagged_exactly operator num1 num2 st :
  JS.isNaN num1 = false ->
  JS.isNaN num2 = false ->
  (fst (handleErrors operator num1 num2 st) = VNumber 2 <->
   operator = "/" \/ (operator = "%" /\ JS.eq num2 zero = true)) /\
  (forall req,
     operand "num1" req = num1 -> operand "num2" req = num2 ->
     fst (get_div req st) =
     status_json 400 (JMessage "Denominator cannot be 0 in division")).
Proof.
  intros Ha Hb.
  pose proof (not_a_number_false _ _ Ha Hb) as Hn.
  split.
  - destruct (String.eqb operator "/" || String.eqb operator "%" && JS.eq num2 zero)
      eqn:H2.
    + rewrite handleErrors_rule2 by assumption. split; [intros _|reflexivity].
      apply orb_true_iff in H2 as [H2|H2].
      * left. now apply String.eqb_eq.
      * right. apply andb_true_iff in H2 as [H2 H3].
        split; [now apply String.eqb_eq | assumption].
    + split.
      * intros H. now apply handleErrors_not2 in H.
      * intros [->| [-> H]]; [discriminate|].
        rewrite H in H2. discriminate.
  - intros req <- <-. rewrite get_div_response. cbv zeta.
    rewrite handleErrors_rule2 by (assumption || reflexivity). reflexivity.
Qed.

Lemma division_by_zero_flagged_exactly_witness :
  let num1 := JS.parseFloat_string "10" in
  let num2 := JS.parseFloat_string "5" in
  JS.isNaN num1 = false /\ JS.isNaN num2 = false /\
  JS.eq num2 zero = false /\
  fst (handleErrors "/" num1 num2 listening) = VNumber 2 /\
  fst (get_div {| query := [("num1", QString "10"); ("num2", QString "5")] |} listening)
  = status_json 400 (JMessage "Denominator cannot be 0 in division").
Proof.
  cbv zeta.
  destruct (division_by_zero_flagged_exactly "/" (JS.parseFloat_string "10")
              (JS.parseFloat_string "5") listening) as [Hiff Hdiv];
    [reflexivity | reflexivity |].
  split; [reflexivity|]. split; [reflexivity|]. split; [reflexivity|].
  split.
  - apply Hiff. left. reflexivity.
  - apply Hdiv; reflexivity.
Defined.

Local Ltac handler_cases h :=
  unfold h, operand, bind;
  match goal with
  | |- context [handleErrors ?o ?a ?b ?st] =>
      destruct (handleErrors o a b st) as [[|n] ?]; simpl; [reflexivity|]
  end;
  repeat match goal with
         | |- context [(?n =? ?k)] => destruct (n =? k); [reflexivity|]
         end;
  reflexivity.

Lemma get_add_response req st :
  fst (get_add req st) =
  let num1 := operand "num1" req in
  let num2 := operand "num2" req in
  let validate := fst (handleErrors "+" num1 num2 st) in
  if validate == 1 then status_json 400 (JMessage "num1 and num2 must be numbers")
  else if validate == 3 then
    status_json 400 (JMessage "Either numbers are too large or too small")
  else send_json (JResult (JS.add num1 num2)).
Proof. handler_cases get_add. Qed.

Lemma get_sub_response req st :
  fst (get_sub req st) =
  let num1 := operand "num1" req in
  let num2 := operand "num2" req in
  let validate := fst (handleErrors "-" num1 num2 st) in
  if validate == 1 then status_json 400 (JMessage "num1 and num2 must be numbers")
  else if validate == 3 then
    status_json 400 (JMessage "Either numbers are too large or too small")
  else send_json (JResult (JS.sub num1 num2)).
Proof. handler_cases get_sub. Qed.

Lemma get_mul_response req st :
  fst (get_mul req st) =
  let num1 := operand "num1" req in
  let num2 := operand "num2" req in
  let validate := fst (handleErrors "*" num1 num2 st) in
  if validate == 1 then status_json 400 (JMessage "num1 and num2 must be numbers")
  else if validate == 3 then
    status_json 400 (JMessage "Either numbers are too large or too small")
  else send_json (JResult (JS.mul num1 num2)).
Proof. handler_cases get_mul. Qed.

Lemma get_exp_response pow_approx req st :
  fst (get_exp pow_approx req st) =
  let num1 := operand "num1" req in
  let num2 := operand "num2" req in
  let validate := fst (handleErrors "^" num1 num2 st) in
  if validate == 1 then status_json 400 (JMessage "num1 and num2 must be numbers")
  else if validate == 3 then
    status_json 400 (JMessage "Either numbers are too large or too small")
  else if validate == 4 then
    status_json 400 (JMessage "If base is negative, exponent cannot be a fraction")
  else if validate == 5 then
    status_json 400 (JMessage "If base is 0, exponent cannot be a negative fraction")
  else send_json (JResult (JS.Math_pow pow_approx num1 num2)).
Proof. handler_cases get_exp. Qed.

Lemma get_sqrt_response req st :
  fst (get_sqrt req st) =
  let num1 := operand "num1" req in
  let validate := fst (handleErrors "sqrt" num1 zero st) in
  if validate == 1 then status_json 400 (JMessage "num1 must be a number")
  else if validate == 3 then status_json 400 (JMessage "Numbers is too large or too small")
  else if validate == 6 then
    status_json 400 (JMessage "Square root of negative numbers is not supported")
  else send_json (JResult (JS.Math_sqrt num1)).
Proof. handler_cases get_sqrt. Qed.

Lemma get_mod_response req st :
  fst (get_mod req st) =
  let num1 := operand "num1" req in
  let num2 := operand "num2" req in
  let validate := fst (handleErrors "%" num1 num2 st) in
  if validate == 1 then status_json 400 (JMessage "num1 and num2 must be numbers")
  else if validate == 2 then status_json 400 (JMessage "Denominator cannot be 0 in modulo")
  else if validate == 3 then
    status_json 400 (JMessage "Either numbers are too large or too small")
  else send_json (JResult (JS.rem num1 num2)).
Proof. handler_cases get_mod. Qed.

(** For the divide operator the first two rules are exhaustive. *)
Lemma handleErrors_divide num1 num2 st :
  fst (handleErrors "/" num1 num2 st) =
  if not_a_number num1 num2 then VNumber 1 else VNumber 2.
Proof.
  destruct (not_a_number num1 num2) eqn:H1.
  - now rewrite handleErrors_rule1.
  - now rewrite handleErrors_rule2.
Qed.

(** C3: on [/div] the validator answers 1 when an operand is NaN and 2
    otherwise, never 3, so no [/div] response carries the out-of-range
    message: the handler's [validate == 3] branch is unreachable. *)
Theorem div_never_out_of_range num1 num2 st req :
  fst (handleErrors "/" num1 num2 st) =
    (if not_a_number num1 num2 then VNumber 1 else VNumber 2) /\
  fst (handleErrors "/" num1 num2 st) <> VNumber 3 /\
  (fst (get_div req st) = status_json 400 (JMessage "num1 and num2 must be numbers") \/
   fst (get_div req st) = status_json 400 (JMessage "Denominator cannot be 0 in division")) /\
  body (fst (get_div req st)) <> JMessage "Either numbers are too large or too small".
Proof.
  split; [apply handleErrors_divide|].
  split; [rewrite handleErrors_divide; destruct (not_a_number _ _); discriminate|].
  rewrite get_div_response. cbv zeta. rewrite handleErrors_divide.
  destruct (not_a_number _ _); simpl; split; (now left) || (now right) || discriminate.
Qed.

(** C2 (the code departs from it): for the exponent and the square-root
    operators [handleErrors] never returns 0.  When no rule matches, the
    body ends without a [return] and the call evaluates to [undefined], as
    on the operands 2 and 3 for ["^"] and 16 for ["sqrt"]. *)
Theorem exponent_and_sqrt_fall_through :
  (forall num1 num2 st, fst (handleErrors "^" num1 num2 st) <> VNumber 0) /\
  (forall num1 num2 st, fst (handleErrors "sqrt" num1 num2 st) <> VNumber 0) /\
  fst (handleErrors "^" (JS.parseFloat_string "2") (JS.parseFloat_string "3") listening)
    = VUndefined /\
  fst (handleErrors "sqrt" (JS.parseFloat_string "16") zero listening) = VUndefined.
Proof.
  assert (H : forall operator num1 num2 st,
             String.eqb operator "^" || String.eqb operator "sqrt" = true ->
             fst (handleErrors operator num1 num2 st) <> VNumber 0).
  { intros operator num1 num2 st Hop.
    destruct (not_a_number num1 num2) eqn:H1.
    { rewrite handleErrors_rule1 by assumption. discriminate. }
    destruct (String.eqb operator "/" || String.eqb operator "%" && JS.eq num2 zero) eqn:H2.
    { rewrite handleErrors_rule2 by assumption. discriminate. }
    destruct (out_of_range num1 || out_of_range num2) eqn:H3.
    { rewrite handleErrors_rule3 by assumption. discriminate. }
    rewrite handleErrors_past_rule3 by assumption. cbv zeta.
    destruct (String.eqb operator "^"); [|destruct (String.eqb operator "sqrt")];
      try discriminate;
      repeat match goal with |- context [if ?b then _ else _] => destruct b end;
      discriminate. }
  repeat split; try (intros; apply H; reflexivity); vm_compute; reflexivity.
Qed.

(** C4: whatever the operator, when an operand is NaN the first rule
    answers 1 (and logs one error) before any other rule is looked at, and
    every handler responds 400 with its must-be-numbers message; a
    non-numeric or absent parameter parses to NaN, so
    [/add?num1=abc&num2=1] gets 400 "num1 and num2 must be numbers". *)
Theorem not_a_number_first operator num1 num2 st :
  not_a_number num1 num2 = true ->
  handleErrors operator num1 num2 st =
    (VNumber 1, error_logged "Invalid input: Input parameters are not numbers" st) /\
  (forall pow_approx req,
     operand "num1" req = num1 -> operand "num2" req = num2 ->
     let must := status_json 400 (JMessage "num1 and num2 must be numbers") in
     fst (get_add req st) = must /\ fst (get_sub req st) = must /\
     fst (get_mul req st) = must /\ fst (get_div req st) = must /\
     fst (get_exp pow_approx req st) = must /\ fst (get_mod req st) = must) /\
  (forall req,
     operand "num1" req = num1 -> JS.isNaN num1 = true ->
     fst (get_sqrt req st) = status_json 400 (JMessage "num1 must be a number")) /\
  parseFloat QUndefined = JS.NaN /\
  parseFloat (QString "abc") = JS.NaN /\
  (forall pow_approx,
     fst (GET pow_approx "/add?num1=abc&num2=1" st) =
     Some (status_json 400 (JMessage "num1 and num2 must be numbers"))).
Proof.
  intros Hnan.
  split; [now apply handleErrors_rule1|].
  split.
  { intros pa req <- <-. cbv zeta.
    rewrite get_add_response, get_sub_response, get_mul_response, get_div_response,
      get_exp_response, get_mod_response.
    cbv zeta. rewrite !handleErrors_rule1 by assumption. simpl. tauto. }
  split.
  { intros req <- Hn. rewrite get_sqrt_response. cbv zeta.
    rewrite handleErrors_rule1; [reflexivity|].
    unfold not_a_number. now rewrite Hn. }
  split; [reflexivity|]. split; [reflexivity|].
  intros pa. reflexivity.
Qed.

Lemma not_a_number_first_witness :
  not_a_number (JS.parseFloat_string "abc") (JS.parseFloat_string "1") = true /\
  fst (handleErrors "+" (JS.parseFloat_string "abc") (JS.parseFloat_string "1") listening)
  = VNumber 1.
Proof.
  split; [reflexivity|].
  destruct (not_a_number_first "+" (JS.parseFloat_string "abc")
              (JS.parseFloat_string "1") listening) as [H _]; [reflexivity|].
  rewrite H. reflexivity.
Defined.

(** C9: for operands that are numbers within the safe-integer range, [/add]
    responds 200 with the IEEE-754 double sum of the operands, [/sub] with
    their difference and [/mul] with their product. *)
Theorem add_sub_mul_exact req st :
  let num1 := operand "num1" req in
  let num2 := operand "num2" req in
  not_a_number num1 num2 = false ->
  out_of_range num1 = false ->
  out_of_range num2 = false ->
  fst (get_add req st) = {| status := 200; body := JResult (JS.add num1 num2) |} /\
  fst (get_sub req st) = {| status := 200; body := JResult (JS.sub num1 num2) |} /\
  fst (get_mul req st) = {| status := 200; body := JResult (JS.mul num1 num2) |}.
Proof.
  intros num1 num2 Hn H1 H2.
  rewrite get_add_response, get_sub_response, get_mul_response. cbv zeta.
  fold num1 num2.
  rewrite !handleErrors_past_rule3 by (assumption || reflexivity || now rewrite H1, H2).
  simpl. auto.
Qed.

Lemma add_sub_mul_exact_witness :
  let req := {| query := [("num1", QString "1.5"); ("num2", QString "-2")] |} in
  fst (get_add req listening) =
    {| status := 200; body := JResult (JS.parseFloat_string "-0.5") |} /\
  fst (get_sub req listening) =
    {| status := 200; body := JResult (JS.parseFloat_string "3.5") |} /\
  fst (get_mul req listening) =
    {| status := 200; body := JResult (JS.parseFloat_string "-3") |}.
Proof.
  exact (add_sub_mul_exact
           {| query := [("num1", QString "1.5"); ("num2", QString "-2")] |} listening
           eq_refl eq_refl eq_refl).
Defined.

(** C10 (the code departs from it): a call of the validator for the
    exponent operator that gets past the range check assigns the undeclared
    identifier [n2], that is a property of the global object, which outlives
    the call: after validating 2 ^ 3 in a process where [n2] was not defined
    it holds the string 3, although nothing was logged, and the next request
    starts in that state. *)
Theorem validator_writes_global_n2 :
  (forall num1 num2 st,
     not_a_number num1 num2 = false ->
     out_of_range num1 || out_of_range num2 = false ->
     global_n2 (snd (handleErrors "^" num1 num2 st)) = Some (JS.Number_toString num2)) /\
  global_n2 listening = None /\
  (let st' := snd (handleErrors "^" (JS.parseFloat_string "2") (JS.parseFloat_string "3")
                     listening) in
   global_n2 st' = Some "3" /\ logger st' = logger listening /\ st' <> listening) /\
  (forall pow_approx,
     global_n2 (snd (GET pow_approx "/exp?num1=2&num2=3" listening)) = Some "3").
Proof.
  split.
  { intros num1 num2 st H1 H3.
    rewrite handleErrors_past_rule3 by (assumption || reflexivity). cbv zeta.
    change (String.eqb "^" "^") with true. cbv iota.
    repeat match goal with |- context [if ?b then _ else _] => destruct b end;
      reflexivity. }
  split; [reflexivity|].
  split; [|intros pa; vm_compute; reflexivity].
  cbv zeta. split; [vm_compute; reflexivity|].
  split; [vm_compute; reflexivity|].
  intros H. apply (f_equal global_n2) in H. vm_compute in H. discriminate.
Qed.

(** What the validator leaves untouched: for every operator other than
    ["^"] the global object is as before; whatever the operator, the
    transports only grow, by at most one error record. *)
Lemma handleErrors_frame operator num1 num2 st :
  String.eqb operator "^" = false ->
  global_n2 (snd (handleErrors operator num1 num2 st)) = global_n2 st.
Proof.
  intros Hop.
  destruct (not_a_number num1 num2) eqn:H1.
  { now rewrite handleErrors_rule1. }
  destruct (String.eqb operator "/" || String.eqb operator "%" && JS.eq num2 zero) eqn:H2.
  { now rewrite handleErrors_rule2. }
  destruct (out_of_range num1 || out_of_range num2) eqn:H3.
  { now rewrite handleErrors_rule3. }
  rewrite handleErrors_past_rule3 by assumption. rewrite Hop.
  repeat match goal with |- context [if ?b then _ else _] => destruct b end;
    reflexivity.
Qed.

Lemma handleErrors_log_grows operator num1 num2 st :
  let t := logger st in
  let t' := logger (snd (handleErrors operator num1 num2 st)) in
  t' = t \/ exists msg, t' = Winston.log Winston.error msg t.
Proof.
  cbv zeta.
  destruct (not_a_number num1 num2) eqn:H1.
  { rewrite handleErrors_rule1 by assumption. right. eexists. reflexivity. }
  destruct (String.eqb operator "/" || String.eqb operator "%" && JS.eq num2 zero) eqn:H2.
  { rewrite handleErrors_rule2 by assumption. right. eexists. reflexivity. }
  destruct (out_of_range num1 || out_of_range num2) eqn:H3.
  { rewrite handleErrors_rule3 by assumption. right. eexists. reflexivity. }
  rewrite handleErrors_past_rule3 by assumption. cbv zeta.
  repeat match goal with |- context [if ?b then _ else _] => destruct b end;
    (left; reflexivity) || (right; eexists; reflexivity).
Qed.

(** "Magnitude beyond [2^53 - 1]" is what the four comparisons of rule 3
    test on each operand. *)
Lemma out_of_range_magnitude x :
  out_of_range x = JS.gt (SFabs x) JS.MAX_SAFE_INTEGER.
Proof.
  unfold out_of_range, JS.gt, JS.lt, SFltb, JS.MAX_SAFE_INTEGER, JS.MIN_SAFE_INTEGER.
  generalize 9007199254740991%positive as M. intros M.
  destruct x as [[]|[]| |[] m e]; try reflexivity; cbn [SFabs SFcompare].
  - rewrite (Z.compare_antisym e 0).
    destruct (e ?= 0); cbn [CompOpp orb]; try reflexivity.
    match goal with
    | |- context [CompOpp ?a] =>
        replace (CompOpp a) with (Pos.compare_cont Eq M m)
          by (symmetry; exact (Pos.compare_cont_antisym m M Eq))
    end.
    reflexivity.
  - destruct (0 ?= e); try reflexivity.
    match goal with
    | |- context [orb (match ?a with Eq => _ | Lt => _ | Gt => _ end) _] =>
        destruct a; reflexivity
    end.
Qed.

(** ** Rule 3 and the rules before it *)

(** C5, as stated, fails: with modulo, a first operand beyond the range and
    a zero second operand, both numbers, the validator answers 2, not 3
    ([/mod?num1=1e309&num2=0] gets the modulo message). *)
Lemma out_of_range_shadowed_by_rule2 :
  (let num1 := JS.parseFloat_string "1e309" in
   let num2 := JS.parseFloat_string "0" in
   not_a_number num1 num2 = false /\ out_of_range num1 = true /\
   fst (handleErrors "%" num1 num2 listening) = VNumber 2 /\
   fst (GET (fun _ _ => JS.NaN) "/mod?num1=1e309&num2=0" listening) =
   Some (status_json 400 (JMessage "Denominator cannot be 0 in modulo"))) /\
  ~ (forall operator num1 num2 st,
       not_a_number num1 num2 = false ->
       out_of_range num1 || out_of_range num2 = true ->
       fst (handleErrors operator num1 num2 st) = VNumber 3).
Proof.
  split; [cbv zeta; repeat split; vm_compute; reflexivity|].
  intros H.
  specialize (H "%" (JS.parseFloat_string "1e309") (JS.parseFloat_string "0") listening
                eq_refl eq_refl).
  vm_compute in H. discriminate.
Qed.

(** C5, amended: for an operator other than divide and operands that are
    both numbers, one of them beyond [2^53 - 1] in magnitude, unless the
    operator is modulo with a zero second operand, the validator answers 3
    and the handler responds 400 with its out-of-range message;
    [/add?num1=1e309&num2=1] gets that response. *)
Theorem out_of_range_flagged operator num1 num2 st :
  not_a_number num1 num2 = false ->
  out_of_range num1 || out_of_range num2 = true ->
  operator <> "/" ->
  ~ (operator = "%" /\ JS.eq num2 zero = true) ->
  handleErrors operator num1 num2 st =
    (VNumber 3,
     error_logged "Range exceeded: Input parameters have exceeded min/max range limits" st) /\
  (forall pow_approx req,
     operand "num1" req = num1 -> operand "num2" req = num2 ->
     let large := status_json 400 (JMessage "Either numbers are too large or too small") in
     fst (get_add req st) = large /\ fst (get_sub req st) = large /\
     fst (get_mul req st) = large /\ fst (get_exp pow_approx req st) = large /\
     (JS.eq num2 zero = false -> fst (get_mod req st) = large) /\
     (out_of_range num1 = true ->
      fst (get_sqrt req st) =
      status_json 400 (JMessage "Numbers is too large or too small"))) /\
  (forall pow_approx,
     fst (GET pow_approx "/add?num1=1e309&num2=1" st) =
     Some (status_json 400 (JMessage "Either numbers are too large or too small"))).
Proof.
  intros Hn Hr Hdiv Hmod.
  assert (H2 : String.eqb operator "/" || String.eqb operator "%" && JS.eq num2 zero = false).
  { apply orb_false_iff. split.
    - now apply String.eqb_neq.
    - apply not_true_iff_false. intros H. apply andb_true_iff in H as [H1 H3].
      apply Hmod. split; [now apply String.eqb_eq | assumption]. }
  split; [now apply handleErrors_rule3|].
  split; [|intros pa; reflexivity].
  intros pa req <- <-. cbv zeta.
  rewrite get_add_response, get_sub_response, get_mul_response, get_exp_response,
    get_mod_response, get_sqrt_response.
  cbv zeta.
  rewrite !(handleErrors_rule3 "+"), !(handleErrors_rule3 "-"), !(handleErrors_rule3 "*"),
    !(handleErrors_rule3 "^") by (assumption || reflexivity).
  repeat (split; [reflexivity|]). split.
  - intros Hz. rewrite handleErrors_rule3; [reflexivity|assumption| |assumption].
    now rewrite Hz.
  - intros H1. rewrite handleErrors_rule3; [reflexivity| |reflexivity|].
    + apply orb_false_iff in Hn as [Hn _]. unfold not_a_number. now rewrite Hn.
    + now rewrite H1.
Qed.

Lemma out_of_range_flagged_witness :
  let num1 := JS.parseFloat_string "1e309" in
  let num2 := JS.parseFloat_string "1" in
  not_a_number num1 num2 = false /\
  out_of_range num1 || out_of_range num2 = true /\
  fst (handleErrors "+" num1 num2 listening) = VNumber 3.
Proof.
  cbv zeta. split; [reflexivity|]. split; [reflexivity|].
  destruct (out_of_range_flagged "+" (JS.parseFloat_string "1e309")
              (JS.parseFloat_string "1") listening) as [H _].
  - reflexivity.
  - reflexivity.
  - discriminate.
  - intros [H _]. discriminate.
  - rewrite H. reflexivity.
Defined.

(** ** [/mod] *)

(** C7, as stated, fails: with a zero second operand and a first operand
    that is not a number, [/mod] answers with the must-be-numbers message
    ([/mod?num1=abc&num2=0]). *)
Lemma mod_zero_shadowed_by_rule1 :
  (let req := {| query := [("num1", QString "abc"); ("num2", QString "0")] |} in
   JS.eq (operand "num2" req) zero = true /\
   fst (get_mod req listening) =
   status_json 400 (JMessage "num1 and num2 must be numbers") /\
   fst (GET (fun _ _ => JS.NaN) "/mod?num1=abc&num2=0" listening) =
   Some (status_json 400 (JMessage "num1 and num2 must be numbers"))) /\
  ~ (forall req st,
       JS.eq (operand "num2" req) zero = true ->
       fst (get_mod req st) =
       status_json 400 (JMessage "Denominator cannot be 0 in modulo")).
Proof.
  split; [cbv zeta; repeat split; vm_compute; reflexivity|].
  intros H.
  specialize (H {| query := [("num1", QString "abc"); ("num2", QString "0")] |}
                listening eq_refl).
  vm_compute in H. discriminate.
Qed.

(** C7, amended: on [/mod], a zero second operand together with a first
    operand that is a number gets 400 "Denominator cannot be 0 in modulo";
    numeric in-range operands with a non-zero second operand get 200 with
    the remainder; [/mod?num1=10&num2=0] gets the 400 and
    [/mod?num1=10&num2=3] gets 200 with result 1. *)
Theorem mod_responses req st :
  let num1 := operand "num1" req in
  let num2 := operand "num2" req in
  JS.isNaN num1 = false ->
  (JS.eq num2 zero = true ->
   fst (get_mod req st) =
   status_json 400 (JMessage "Denominator cannot be 0 in modulo")) /\
  (JS.isNaN num2 = false -> JS.eq num2 zero = false ->
   out_of_range num1 = false -> out_of_range num2 = false ->
   fst (get_mod req st) = {| status := 200; body := JResult (JS.rem num1 num2) |}) /\
  (forall pow_approx,
     fst (GET pow_approx "/mod?num1=10&num2=0" st) =
     Some (status_json 400 (JMessage "Denominator cannot be 0 in modulo")) /\
     fst (GET pow_approx "/mod?num1=10&num2=3" st) =
     Some {| status := 200; body := JResult (JS.of_Z 1) |}).
Proof.
  intros num1 num2 H1. rewrite get_mod_response. cbv zeta. fold num1 num2.
  split; [|split].
  - intros Hz. rewrite handleErrors_rule2; [reflexivity| |now rewrite Hz].
    unfold not_a_number. rewrite H1.
    destruct num2; (discriminate || reflexivity).
  - intros H2 Hz Hr1 Hr2.
    rewrite handleErrors_past_rule3; [reflexivity| | |].
    + now apply not_a_number_false.
    + now rewrite Hz.
    + now rewrite Hr1, Hr2.
  - intros pa. split; reflexivity.
Qed.

Lemma mod_responses_witness :
  let req := {| query := [("num1", QString "-7.5"); ("num2", QString "2")] |} in
  JS.isNaN (operand "num1" req) = false /\
  fst (get_mod req listening) =
  {| status := 200; body := JResult (JS.parseFloat_string "-1.5") |}.
Proof.
  cbv zeta. split; [reflexivity|].
  destruct (mod_responses {| query := [("num1", QString "-7.5"); ("num2", QString "2")] |}
              listening eq_refl) as (_ & H & _).
  rewrite H; reflexivity.
Defined.

(** ** [/sqrt] *)

(** C8, as stated, fails: a negative operand below [-(2^53 - 1)] is stopped
    by the range rule first ([/sqrt?num1=-1e300] gets the out-of-range
    message). *)
Lemma sqrt_negative_shadowed_by_rule3 :
  (let req := {| query := [("num1", QString "-1e300")] |} in
   JS.isNaN (operand "num1" req) = false /\
   JS.lt (operand "num1" req) zero = true /\
   fst (get_sqrt req listening) =
   status_json 400 (JMessage "Numbers is too large or too small") /\
   fst (GET (fun _ _ => JS.NaN) "/sqrt?num1=-1e300" listening) =
   Some (status_json 400 (JMessage "Numbers is too large or too small"))) /\
  ~ (forall req st,
       JS.isNaN (operand "num1" req) = false ->
       JS.lt (operand "num1" req) zero = true ->
       fst (get_sqrt req st) =
       status_json 400 (JMessage "Square root of negative numbers is not supported")).
Proof.
  split; [cbv zeta; repeat split; vm_compute; reflexivity|].
  intros H.
  specialize (H {| query := [("num1", QString "-1e300")] |} listening eq_refl eq_refl).
  vm_compute in H. discriminate.
Qed.

(** C8, amended: on [/sqrt], a negative numeric operand that is not below
    [-(2^53 - 1)] gets 400 "Square root of negative numbers is not
    supported", and a non-negative in-range numeric operand gets 200 with
    its square root; [/sqrt?num1=-4] gets the 400 and [/sqrt?num1=16] gets
    200 with result 4. *)
Theorem sqrt_responses req st :
  let num1 := operand "num1" req in
  JS.isNaN num1 = false ->
  out_of_range num1 = false ->
  (JS.lt num1 zero = true ->
   fst (get_sqrt req st) =
   status_json 400 (JMessage "Square root of negative numbers is not supported")) /\
  (JS.lt num1 zero = false ->
   fst (get_sqrt req st) = {| status := 200; body := JResult (JS.Math_sqrt num1) |}) /\
  (forall pow_approx,
     fst (GET pow_approx "/sqrt?num1=-4" st) =
     Some (status_json 400 (JMessage "Square root of negative numbers is not supported")) /\
     fst (GET pow_approx "/sqrt?num1=16" st) =
     Some {| status := 200; body := JResult (JS.of_Z 4) |}).
Proof.
  intros num1 Hn Hr. rewrite get_sqrt_response. cbv zeta. fold num1.
  rewrite handleErrors_past_rule3;
    [| unfold not_a_number; now rewrite Hn | reflexivity | now rewrite Hr ].
  change (String.eqb "sqrt" "^") with false.
  change (String.eqb "sqrt" "sqrt") with true. cbv iota.
  split; [|split].
  - intros ->. reflexivity.
  - intros ->. reflexivity.
  - intros pa. split; reflexivity.
Qed.

Lemma sqrt_responses_witness :
  let req := {| query := [("num1", QString "2.25")] |} in
  JS.isNaN (operand "num1" req) = false /\
  out_of_range (operand "num1" req) = false /\
  fst (get_sqrt req listening) =
  {| status := 200; body := JResult (JS.parseFloat_string "1.5") |}.
Proof.
  cbv zeta. split; [reflexivity|]. split; [reflexivity|].
  destruct (sqrt_responses {| query := [("num1", QString "2.25")] |} listening
              eq_refl eq_refl) as (_ & H & _).
  rewrite H; reflexivity.
Defined.

(* ================================================================== *)
(** * The decimal form of an integral Number                            *)
(* ================================================================== *)

(** ** The regular expression needs a dot *)

Lemma skip_digits_dot_free s : dot_free s = true -> dot_free (JS.skip_digits s) = true.
Proof.
  induction s as [|c t IH]; simpl; [trivial|].
  intros H. destruct (JS.is_digit c).
  - apply andb_true_iff in H as [_ H]. auto.
  - exact H.
Qed.

Lemma digits_dot_digits_here_dot_free s :
  dot_free s = true -> JS.digits_dot_digits_here s = false.
Proof.
  destruct s as [|c t]; simpl; [reflexivity|].
  intros H. apply andb_true_iff in H as [_ H].
  apply skip_digits_dot_free in H.
  destruct (JS.skip_digits t) as [|d u]; [apply andb_false_r|].
  simpl in H. apply andb_true_iff in H as [H _].
  apply negb_true_iff in H.
  destruct d as [[] [] [] [] [] [] [] []]; try apply andb_false_r; discriminate.
Qed.

Lemma digits_dot_digits_test_dot_free s :
  dot_free s = true -> JS.digits_dot_digits_test s = false.
Proof.
  induction s as [|c t IH]; [reflexivity|].
  intros H. cbn [JS.digits_dot_digits_test].
  rewrite digits_dot_digits_here_dot_free by assumption.
  simpl in H. apply andb_true_iff in H as [_ H]. auto.
Qed.

(** ** Digits *)

Lemma digit_char_not_dot d :
  decimal_digit d -> Ascii.eqb (JS.digit_char d) "." = false.
Proof.
  unfold decimal_digit. intros H.
  assert (E : d = 0 \/ d = 1 \/ d = 2 \/ d = 3 \/ d = 4 \/ d = 5 \/ d = 6 \/ d = 7 \/
              d = 8 \/ d = 9) by lia.
  repeat destruct E as [->|E]; try subst d; reflexivity.
Qed.

Lemma string_of_digits_dot_free ds :
  Forall decimal_digit ds -> dot_free (JS.string_of_digits ds) = true.
Proof.
  induction 1 as [|d ds Hd _ IH]; [reflexivity|].
  simpl. now rewrite digit_char_not_dot, IH.
Qed.

Lemma digits_aux_digits fuel : forall z acc,
  0 <= z -> Forall decimal_digit acc -> Forall decimal_digit (JS.digits_aux fuel z acc).
Proof.
  induction fuel as [|f IH]; intros z acc Hz Hacc; simpl; [assumption|].
  destruct (Z.ltb_spec z 10).
  - constructor; [unfold decimal_digit; lia | assumption].
  - apply IH.
    + apply Z.div_pos; lia.
    + constructor; [|assumption].
      unfold decimal_digit. pose proof (Z.mod_pos_bound z 10). lia.
Qed.

Lemma digits_aux_length fuel : forall z acc j,
  0 <= z < 10 ^ j -> 1 <= j ->
  Z.of_nat (List.length (JS.digits_aux fuel z acc)) <= Z.of_nat (List.length acc) + j.
Proof.
  induction fuel as [|f IH]; intros z acc j Hz Hj; simpl; [lia|].
  destruct (Z.ltb_spec z 10).
  - simpl. lia.
  - assert (2 <= j).
    { destruct (Z.eq_dec j 1) as [->|]; [|lia]. change (10 ^ 1) with 10 in Hz. lia. }
    specialize (IH (z / 10) (z mod 10 :: acc) (j - 1)).
    cbn [List.length] in IH. rewrite Nat2Z.inj_succ in IH.
    assert (z / 10 < 10 ^ (j - 1)).
    { apply Z.div_lt_upper_bound; [lia|].
      replace (10 * 10 ^ (j - 1)) with (10 ^ j); [lia|].
      replace j with (1 + (j - 1)) at 1 by lia.
      rewrite Z.pow_add_r by lia. reflexivity. }
    assert (0 <= z / 10) by (apply Z.div_pos; lia).
    lia.
Qed.

Lemma digits_of_digits z : 0 <= z -> Forall decimal_digit (JS.digits_of z).
Proof. intros H. apply digits_aux_digits; [assumption | constructor]. Qed.

Lemma digits_of_length z j :
  0 <= z < 10 ^ j -> 1 <= j -> Z.of_nat (List.length (JS.digits_of z)) <= j.
Proof. intros H Hj. apply (digits_aux_length _ z [] j H Hj). Qed.

Lemma strip_zeros_digits ds :
  Forall decimal_digit ds -> Forall decimal_digit (JS.strip_zeros ds).
Proof.
  induction 1 as [|d ds Hd H IH]; simpl; [constructor|].
  destruct d; try (constructor; assumption). exact IH.
Qed.

Lemma strip_zeros_length ds : (List.length (JS.strip_zeros ds) <= List.length ds)%nat.
Proof.
  induction ds as [|d ds IH]; simpl; [lia|].
  destruct d; simpl; lia.
Qed.

(** With at least as many integer places as digits, and at most 21, the
    decimal form is the digits followed by zeros: it has no dot. *)
Lemma format_decimal_integer ds n :
  Forall decimal_digit ds ->
  Z.of_nat (List.length ds) <= n <= 21 ->
  dot_free (JS.format_decimal ds n) = true.
Proof.
  intros Hds Hn. unfold JS.format_decimal.
  destruct (Z.leb_spec (Z.of_nat (List.length ds)) n); [|lia].
  destruct (Z.leb_spec n 21); [|lia]. simpl.
  apply string_of_digits_dot_free, Forall_app. split; [assumption|].
  unfold JS.zeros. apply Forall_forall. intros d Hd.
  apply repeat_spec in Hd. subst d. unfold decimal_digit. lia.
Qed.

(** ** Doubles within the safe range *)

Lemma digits2_pos_bound m : Zpos m < 2 ^ Zpos (digits2_pos m).
Proof.
  induction m as [p IH|p IH|]; cbn [digits2_pos].
  - rewrite Pos2Z.inj_succ, Z.pow_succ_r by lia. lia.
  - rewrite Pos2Z.inj_succ, Z.pow_succ_r by lia. lia.
  - reflexivity.
Qed.

(** A double within the range has a non-positive exponent and a mantissa
    below [2^53]. *)
Lemma in_range_exponent s m e :
  out_of_range (S754_finite s m e) = false -> e <= 0.
Proof.
  rewrite out_of_range_magnitude.
  unfold JS.gt, SFltb, JS.MAX_SAFE_INTEGER. cbn [SFabs SFcompare].
  destruct (Z.compare_spec 0 e); [lia | discriminate | lia].
Qed.

Lemma double_mantissa_bound s m e :
  is_double (S754_finite s m e) = true -> e <= 0 -> Zpos m < 2 ^ 53.
Proof.
  unfold is_double, valid_binary, bounded, canonical_mantissa, fexp, emin, JS.prec, JS.emax.
  intros H He. apply andb_true_iff in H as [H _]. apply Z.eqb_eq in H.
  pose proof (digits2_pos_bound m) as Hm.
  assert (Hd : Zpos (digits2_pos m) <= 53) by lia.
  eapply Z.lt_le_trans; [exact Hm|].
  apply Z.pow_le_mono_r; lia.
Qed.

Lemma integral_divides s m e :
  JS.is_integral (S754_finite s m e) = true -> e <= 0 ->
  Zpos m mod 2 ^ (- e) = 0.
Proof.
  unfold JS.is_integral. intros H He.
  destruct (Z.leb_spec 0 e).
  - replace e with 0 by lia. apply Z.mod_1_r.
  - now apply Z.eqb_eq.
Qed.

(** ** The decimal exponent *)

Lemma decimal_exponent_from_upper m e hi fuel : forall n,
  n <= hi -> JS.below_pow10 m e hi = true -> hi - n < Z.of_nat fuel ->
  n <= JS.decimal_exponent_from fuel m e n <= hi.
Proof.
  induction fuel as [|f IH]; intros n Hn Hhi Hf; [lia|].
  cbn [JS.decimal_exponent_from].
  destruct (JS.below_pow10 m e n) eqn:Hb; [lia|].
  assert (n <> hi) by (intros ->; congruence).
  specialize (IH (n + 1) ltac:(lia) Hhi ltac:(lia)). lia.
Qed.

Lemma decimal_exponent_from_lower m e lo fuel : forall n,
  (forall j, n <= j < lo -> JS.below_pow10 m e j = false) ->
  lo - n <= Z.of_nat fuel ->
  lo <= JS.decimal_exponent_from fuel m e n.
Proof.
  induction fuel as [|f IH]; intros n Hlo Hf; cbn [JS.decimal_exponent_from]; [lia|].
  destruct (JS.below_pow10 m e n) eqn:Hb.
  - destruct (Z.lt_ge_cases n lo); [|lia].
    rewrite Hlo in Hb by lia. discriminate.
  - apply IH; [|lia]. intros j Hj. apply Hlo. lia.
Qed.

(** An integral magnitude [v] with [1 <= v < 2^53], held as [m * 2^e] with
    [e <= 0], has between 1 and 16 integer places. *)
Lemma decimal_exponent_integral m e :
  0 < m < 2 ^ 53 -> e <= 0 -> m mod 2 ^ (- e) = 0 ->
  1 <= JS.decimal_exponent m e <= 16.
Proof.
  intros Hm He Hdiv.
  assert (HD : 0 < 2 ^ (- e)) by (apply Z.pow_pos_nonneg; lia).
  assert (Hle : 2 ^ (- e) <= m).
  { apply Z.mod_divide in Hdiv; [|lia]. apply Z.divide_pos_le; [lia | assumption]. }
  unfold JS.decimal_exponent. split.
  - apply decimal_exponent_from_lower; [|lia].
    intros j Hj. unfold JS.below_pow10.
    rewrite (Z.max_r e 0), (Z.max_l (- e) 0), (Z.max_l (- j) 0), (Z.max_r j 0) by lia.
    apply Z.ltb_ge. change (10 ^ 0) with 1. change (2 ^ 0) with 1.
    assert (0 < 10 ^ (- j)) by (apply Z.pow_pos_nonneg; lia).
    nia.
  - apply (decimal_exponent_from_upper m e 16); [lia| |lia].
    unfold JS.below_pow10.
    rewrite (Z.max_r e 0) by lia. rewrite (Z.max_l (- e) 0) by lia.
    apply Z.ltb_lt. cbn [Z.max Z.opp Z.compare Z.pow Z.pow_pos Pos.iter].
    assert (2 ^ 53 < 10 ^ 16) by reflexivity.
    change (10 ^ 16) with 10000000000000000 in *.
    change (2 ^ 53) with 9007199254740992 in *. nia.
Qed.

(** ** The shortest decimal *)

Lemma candidate_floor_or_next m e p s :
  JS.candidate m e p = Some s ->
  s = JS.scaled_num m e p / JS.scaled_den e p \/
  s = JS.scaled_num m e p / JS.scaled_den e p + 1.
Proof.
  unfold JS.candidate.
  destruct (JS.rounds_to m e p _), (JS.rounds_to m e p _); intros [= <-]; auto.
  destruct (_ ?= _); auto. destruct (Z.even _); auto.
Qed.

(** An integral value is a candidate for itself: with no digit after the
    point, the value rounds to itself. *)
Lemma candidate_integral m e :
  0 < m -> e <= 0 -> m mod 2 ^ (- e) = 0 -> JS.candidate m e 0 <> None.
Proof.
  intros Hm He Hdiv.
  assert (HD : 0 < 2 ^ (- e)) by (apply Z.pow_pos_nonneg; lia).
  assert (Hq : m = 2 ^ (- e) * (m / 2 ^ (- e))).
  { rewrite (Z.div_mod m (2 ^ (- e))) at 1 by lia. lia. }
  unfold JS.candidate.
  assert (Hr : JS.rounds_to m e 0 (JS.scaled_num m e 0 / JS.scaled_den e 0) = true).
  { unfold JS.rounds_to, JS.scaled_num, JS.scaled_den, JS.interval_low, JS.interval_high.
    rewrite (Z.max_r e 0), (Z.max_l (- e) 0) by lia.
    change (Z.max (- 0) 0) with 0. change (Z.max 0 0) with 0.
    change (10 ^ 0) with 1. change (2 ^ 0) with 1.
    rewrite !Z.mul_1_r.
    set (q := m / 2 ^ (- e)) in *.
    replace (4 * m * 2 ^ (- e) * q) with (4 * m * (2 ^ (- e) * q)) by ring.
    rewrite <- Hq.
    destruct (Z.even m), ((m =? 2 ^ (JS.prec - 1)) && (3 - JS.emax - JS.prec <? e));
      apply andb_true_iff; split;
      (apply Z.leb_le || apply Z.ltb_lt); nia. }
  cbv zeta. rewrite Hr. destruct (JS.rounds_to m e 0 (_ + 1)); discriminate.
Qed.

(** The search stops at the latest when as many digits are tried as the
    value has integer places. *)
Lemma shortest_from_stops m e n fuel : forall k,
  k <= n -> n - k < Z.of_nat fuel -> JS.candidate m e 0 <> None ->
  exists s k', k <= k' <= n /\
    JS.shortest_from fuel m e n k = (s, n - k') /\
    JS.candidate m e (n - k') = Some s.
Proof.
  induction fuel as [|f IH]; intros k Hk Hf Hc; [lia|].
  cbn [JS.shortest_from].
  destruct (JS.candidate m e (n - k)) as [s|] eqn:Hs.
  - exists s, k. repeat split; (lia || assumption).
  - assert (k <> n) by (intros ->; rewrite Z.sub_diag in Hs; contradiction).
    destruct (IH (k + 1) ltac:(lia) ltac:(lia) Hc) as (s & k' & H1 & H2 & H3).
    exists s, k'. repeat split; (lia || assumption).
Qed.

(** The shortest decimal of an integral magnitude below [2^53] has no digit
    after the point, and at most 17 integer places. *)
Lemma shortest_decimal_integral m e :
  0 < m < 2 ^ 53 -> e <= 0 -> m mod 2 ^ (- e) = 0 ->
  exists s p, JS.shortest_decimal m e = (s, p) /\ 0 <= p /\ 0 <= s < 10 ^ (17 - p)
              /\ p <= 15.
Proof.
  intros Hm He Hdiv.
  pose proof (decimal_exponent_integral m e Hm He Hdiv) as Hn.
  unfold JS.shortest_decimal.
  set (n := JS.decimal_exponent m e) in *.
  destruct (shortest_from_stops m e n 17 1) as (s & k' & Hk & Hs & Hc);
    [lia | simpl; lia | apply candidate_integral; lia |].
  exists s, (n - k'). split; [exact Hs|]. split; [lia|]. split; [|lia].
  set (p := n - k') in *.
  assert (HD : 0 < 2 ^ (- e)) by (apply Z.pow_pos_nonneg; lia).
  assert (HP : 0 < 10 ^ p) by (apply Z.pow_pos_nonneg; lia).
  apply candidate_floor_or_next in Hc.
  unfold JS.scaled_num, JS.scaled_den in Hc.
  rewrite (Z.max_r e 0), (Z.max_l (- e) 0), (Z.max_r (- p) 0), (Z.max_l p 0) in Hc by lia.
  change (10 ^ 0) with 1 in Hc. change (2 ^ 0) with 1 in Hc.
  rewrite !Z.mul_1_r in Hc.
  assert (Hq0 : 0 <= m / (2 ^ (- e) * 10 ^ p)) by (apply Z.div_pos; nia).
  assert (Hq1 : m / (2 ^ (- e) * 10 ^ p) < 10 ^ (16 - p)).
  { apply Z.div_lt_upper_bound; [nia|].
    replace (2 ^ (- e) * 10 ^ p * 10 ^ (16 - p)) with (2 ^ (- e) * 10 ^ 16).
    - assert (2 ^ 53 < 10 ^ 16) by reflexivity.
      change (10 ^ 16) with 10000000000000000 in *.
      change (2 ^ 53) with 9007199254740992 in *. nia.
    - rewrite <- Z.mul_assoc, <- Z.pow_add_r by lia. do 2 f_equal. lia. }
  assert (H17 : 10 ^ (17 - p) = 10 * 10 ^ (16 - p)).
  { replace (17 - p) with (1 + (16 - p)) by lia. rewrite Z.pow_add_r by lia. reflexivity. }
  assert (0 < 10 ^ (16 - p)) by (apply Z.pow_pos_nonneg; lia).
  lia.
Qed.

(** The decimal form of an integral double within the safe range is free of
    dots, so [/\d+\.\d+/] does not match it. *)
Lemma Number_toString_integral x :
  is_double x = true -> out_of_range x = false -> JS.is_integral x = true ->
  dot_free (JS.Number_toString x) = true.
Proof.
  destruct x as [s|s| |s m e]; try (destruct s; reflexivity); try reflexivity.
  intros Hv Hr Hi.
  pose proof (in_range_exponent _ _ _ Hr) as He.
  pose proof (double_mantissa_bound _ _ _ Hv He) as Hm.
  pose proof (integral_divides _ _ _ Hi He) as Hdiv.
  destruct (shortest_decimal_integral (Zpos m) e) as (d & p & Hs & Hp & Hd & Hp');
    [lia | assumption | assumption |].
  cbn [JS.Number_toString]. rewrite Hs.
  assert (Hall : Forall decimal_digit (JS.digits_of d)) by (apply digits_of_digits; lia).
  assert (Hlen : Z.of_nat (List.length (JS.digits_of d)) <= 17 - p)
    by (apply digits_of_length; lia).
  set (all := JS.digits_of d) in *.
  assert (Hfree : dot_free (JS.format_decimal (rev (JS.strip_zeros (rev all)))
                              (p + Z.of_nat (List.length all))) = true).
  { apply format_decimal_integer.
    - apply Forall_rev, strip_zeros_digits, Forall_rev, Hall.
    - rewrite length_rev.
      pose proof (strip_zeros_length (rev all)) as H. rewrite length_rev in H. lia. }
  destruct s; cbn [String.append]; [cbn [dot_free]|]; rewrite ?Hfree; reflexivity.
Qed.

Lemma integral_exponent_no_match x :
  is_double x = true -> out_of_range x = false -> JS.is_integral x = true ->
  JS.digits_dot_digits_test (JS.Number_toString x) = false.
Proof.
  intros. now apply digits_dot_digits_test_dot_free, Number_toString_integral.
Qed.

(* ================================================================== *)
(** * Parsed operands are doubles                                       *)
(* ================================================================== *)

(** ** Binary digits *)

Lemma digits2_pos_lower m : 2 ^ (Zpos (digits2_pos m) - 1) <= Zpos m.
Proof.
  induction m as [p IH|p IH|]; cbn [digits2_pos]; [| |reflexivity];
    rewrite Pos2Z.inj_succ;
    replace (Z.succ (Zpos (digits2_pos p)) - 1) with (Z.succ (Zpos (digits2_pos p) - 1))
      by lia;
    rewrite Z.pow_succ_r by lia; lia.
Qed.

Lemma Zdigits2_spec m :
  0 < m -> 1 <= Zdigits2 m /\ 2 ^ (Zdigits2 m - 1) <= m < 2 ^ Zdigits2 m.
Proof.
  destruct m as [|p|p]; try lia. intros _. cbn [Zdigits2].
  pose proof (digits2_pos_lower p). pose proof (digits2_pos_bound p). lia.
Qed.

Lemma Zdigits2_unique m d :
  1 <= d -> 2 ^ (d - 1) <= m < 2 ^ d -> Zdigits2 m = d.
Proof.
  intros Hd Hm.
  assert (0 < m).
  { assert (0 < 2 ^ (d - 1)) by (apply Z.pow_pos_nonneg; lia). lia. }
  destruct (Zdigits2_spec m) as [H1 H2]; [assumption|].
  destruct (Z.lt_trichotomy (Zdigits2 m) d) as [Hlt|[Heq|Hgt]]; [|assumption|].
  - assert (2 ^ Zdigits2 m <= 2 ^ (d - 1)) by (apply Z.pow_le_mono_r; lia). lia.
  - assert (2 ^ d <= 2 ^ (Zdigits2 m - 1)) by (apply Z.pow_le_mono_r; lia). lia.
Qed.

Lemma Zdigits2_small m n : 0 <= m -> Zdigits2 m <= n -> m / 2 ^ n = 0.
Proof.
  intros Hm Hn. destruct (Z.eq_dec m 0) as [->|].
  - apply Z.div_0_l. apply Z.pow_nonzero; [lia|]. cbn in Hn. lia.
  - destruct (Zdigits2_spec m) as [H1 H2]; [lia|].
    apply Z.div_small. split; [lia|].
    eapply Z.lt_le_trans; [apply H2|]. apply Z.pow_le_mono_r; lia.
Qed.

Lemma Zdigits2_shifted m n :
  0 < m -> 0 <= n < Zdigits2 m -> Zdigits2 (m / 2 ^ n) = Zdigits2 m - n.
Proof.
  intros Hm Hn. destruct (Zdigits2_spec m) as [H1 [H2 H3]]; [assumption|].
  assert (0 < 2 ^ n) by (apply Z.pow_pos_nonneg; lia).
  apply Zdigits2_unique; [lia|]. split.
  - apply Z.div_le_lower_bound; [lia|].
    rewrite <- Z.pow_add_r by lia.
    replace (n + (Zdigits2 m - n - 1)) with (Zdigits2 m - 1) by lia. assumption.
  - apply Z.div_lt_upper_bound; [lia|].
    rewrite <- Z.pow_add_r by lia.
    replace (n + (Zdigits2 m - n)) with (Zdigits2 m) by lia. assumption.
Qed.

Lemma Zdigits2_ge m k : 0 <= k -> 2 ^ k <= m -> k + 1 <= Zdigits2 m.
Proof.
  intros Hk Hm.
  assert (0 < m).
  { assert (0 < 2 ^ k) by (apply Z.pow_pos_nonneg; lia). lia. }
  destruct (Zdigits2_spec m) as [H1 [H2 H3]]; [assumption|].
  destruct (Z.le_gt_cases (k + 1) (Zdigits2 m)); [assumption|].
  assert (2 ^ Zdigits2 m <= 2 ^ k) by (apply Z.pow_le_mono_r; lia). lia.
Qed.

Lemma Zdigits2_nonneg m : 0 <= Zdigits2 m.
Proof. destruct m; cbn; lia. Qed.

(** ** Shifting right *)

Lemma shr_1_m mrs : 0 <= shr_m mrs -> shr_m (shr_1 mrs) = shr_m mrs / 2.
Proof.
  destruct mrs as [m r s]. cbn [shr_m shr_1]. intros Hm.
  destruct m as [|[p|p|]|p]; cbn [shr_m]; try lia.
  - reflexivity.
  - apply (Z.div_unique (Zpos p~1) 2 (Zpos p) 1); lia.
  - apply (Z.div_unique (Zpos p~0) 2 (Zpos p) 0); lia.
  - reflexivity.
Qed.

Lemma iter_shr_1_m p : forall mrs,
  0 <= shr_m mrs ->
  shr_m (iter_pos shr_1 p mrs) = shr_m mrs / 2 ^ Zpos p.
Proof.
  assert (Hpow : forall q, 0 < 2 ^ Zpos q) by (intros; apply Z.pow_pos_nonneg; lia).
  induction p as [p IH|p IH|]; intros mrs Hm; cbn [iter_pos].
  - assert (Ha : 0 <= shr_m (shr_1 mrs)).
    { rewrite shr_1_m by assumption. apply Z.div_pos; lia. }
    assert (Hb : 0 <= shr_m (iter_pos shr_1 p (shr_1 mrs))).
    { rewrite IH by assumption. apply Z.div_pos; [assumption | apply Hpow]. }
    rewrite (IH _ Hb), (IH _ Ha), shr_1_m by assumption.
    rewrite !Z.div_div by (pose proof (Hpow p); lia).
    f_equal. change 2 with (2 ^ 1) at 1. rewrite <- !Z.pow_add_r by lia. f_equal. lia.
  - assert (Hb : 0 <= shr_m (iter_pos shr_1 p mrs)).
    { rewrite IH by assumption. apply Z.div_pos; [assumption | apply Hpow]. }
    rewrite (IH _ Hb), (IH _ Hm).
    rewrite !Z.div_div by (pose proof (Hpow p); lia).
    f_equal. rewrite <- Z.pow_add_r by lia. f_equal. lia.
  - rewrite shr_1_m by assumption. reflexivity.
Qed.

Lemma shr_record_of_loc_m m l : shr_m (shr_record_of_loc m l) = m.
Proof. destruct l as [|[]]; reflexivity. Qed.

(** [shr_fexp] on a mantissa whose exponent is not above the canonical one:
    the mantissa is divided, the exponent becomes canonical. *)
Lemma shr_fexp_m m e l :
  0 <= m ->
  e <= fexp JS.prec JS.emax (Zdigits2 m + e) ->
  let f := fexp JS.prec JS.emax (Zdigits2 m + e) in
  shr_m (fst (shr_fexp JS.prec JS.emax m e l)) = m / 2 ^ (f - e) /\
  snd (shr_fexp JS.prec JS.emax m e l) = f.
Proof.
  intros Hm He f. unfold shr_fexp, shr. fold f.
  destruct (f - e) as [|p|p] eqn:Hd; try lia; cbn [fst snd].
  - rewrite shr_record_of_loc_m. rewrite Z.div_1_r. split; [reflexivity | lia].
  - rewrite iter_shr_1_m by (rewrite shr_record_of_loc_m; assumption).
    rewrite shr_record_of_loc_m. split; [reflexivity | lia].
Qed.

(** ** Rounding yields canonical doubles *)

Lemma fexp_mono a b :
  a <= b -> fexp JS.prec JS.emax a <= fexp JS.prec JS.emax b.
Proof. unfold fexp, emin, JS.prec, JS.emax. lia. Qed.

Lemma Zdigits2_succ_mono m : 0 <= m -> Zdigits2 m <= Zdigits2 (m + 1).
Proof.
  intros Hm. destruct (Z.eq_dec m 0) as [->|]; [cbn; lia|].
  destruct (Zdigits2_spec m) as [H1 [H2 H3]]; [lia|].
  pose proof (Zdigits2_ge (m + 1) (Zdigits2 m - 1)). lia.
Qed.

(** After [shr_fexp] the mantissa and the exponent are canonical. *)
Lemma shr_fexp_canonical m e l :
  0 <= m ->
  e <= fexp JS.prec JS.emax (Zdigits2 m + e) ->
  let '(mrs, e') := shr_fexp JS.prec JS.emax m e l in
  0 <= shr_m mrs /\ fexp JS.prec JS.emax (Zdigits2 (shr_m mrs) + e') = e'.
Proof.
  intros Hm He.
  destruct (shr_fexp_m m e l Hm He) as [H1 H2].
  destruct (shr_fexp JS.prec JS.emax m e l) as [mrs e']. cbn [fst snd] in H1, H2.
  set (f := fexp JS.prec JS.emax (Zdigits2 m + e)) in *.
  rewrite H1, H2.
  assert (Hp : 0 < 2 ^ (f - e)) by (apply Z.pow_pos_nonneg; lia).
  split; [apply Z.div_pos; lia|].
  destruct (Z.lt_ge_cases (f - e) (Zdigits2 m)) as [Hlt|Hge].
  - assert (0 < m) by (destruct m; cbn in Hlt; lia).
    rewrite Zdigits2_shifted by lia.
    replace (Zdigits2 m - (f - e) + f) with (Zdigits2 m + e) by lia. reflexivity.
  - rewrite Zdigits2_small by assumption. cbn [Zdigits2].
    revert Hge. unfold f, fexp, emin, JS.prec, JS.emax.
    pose proof (Zdigits2_nonneg m). lia.
Qed.

Lemma round_nearest_even_cases m l :
  round_nearest_even m l = m \/ round_nearest_even m l = m + 1.
Proof.
  destruct l as [|[]]; cbn [round_nearest_even]; auto.
  destruct (Z.even m); auto.
Qed.

(** The result of [binary_round_aux] on an aligned mantissa is a double. *)
Lemma binary_round_aux_is_double sx mx ex lx :
  0 <= mx ->
  ex <= fexp JS.prec JS.emax (Zdigits2 mx + ex) ->
  is_double (binary_round_aux JS.prec JS.emax sx mx ex lx) = true.
Proof.
  intros Hm He. unfold binary_round_aux.
  pose proof (shr_fexp_canonical mx ex lx Hm He) as H1.
  destruct (shr_fexp JS.prec JS.emax mx ex lx) as [mrs' e'].
  destruct H1 as [H1 H1'].
  set (m2 := round_nearest_even (shr_m mrs') (loc_of_shr_record mrs')).
  assert (Hm2 : 0 <= m2 /\ Zdigits2 (shr_m mrs') <= Zdigits2 m2).
  { unfold m2.
    destruct (round_nearest_even_cases (shr_m mrs') (loc_of_shr_record mrs')) as [->| ->].
    - lia.
    - split; [lia | now apply Zdigits2_succ_mono]. }
  assert (He2 : e' <= fexp JS.prec JS.emax (Zdigits2 m2 + e')).
  { rewrite <- H1' at 1. apply fexp_mono. lia. }
  pose proof (shr_fexp_canonical m2 e' loc_Exact (proj1 Hm2) He2) as H2.
  destruct (shr_fexp JS.prec JS.emax m2 e' loc_Exact) as [mrs'' e''].
  destruct H2 as [H2 H2'].
  destruct (shr_m mrs'') as [|m|m] eqn:Hm3; [reflexivity| |reflexivity].
  destruct (Z.leb_spec e'' (JS.emax - JS.prec)); [|reflexivity].
  unfold is_double, valid_binary, bounded, canonical_mantissa.
  apply andb_true_iff. split.
  - apply Z.eqb_eq. exact H2'.
  - now apply Z.leb_le.
Qed.

Lemma digits2_pos_iter_xO m d :
  Zpos (digits2_pos (Pos.iter xO m d)) = Zpos (digits2_pos m) + Zpos d.
Proof.
  induction d as [|d IH] using Pos.peano_ind.
  - cbn [Pos.iter digits2_pos]. lia.
  - rewrite Pos.iter_succ. cbn [digits2_pos]. lia.
Qed.

Lemma binary_round_is_double sx mx ex :
  is_double (binary_round JS.prec JS.emax sx mx ex) = true.
Proof.
  unfold binary_round, shl_align.
  set (f := fexp JS.prec JS.emax (Zpos (digits2_pos mx) + ex)).
  destruct (f - ex) as [|d|d] eqn:Hd.
  - apply binary_round_aux_is_double; [lia|]. cbn [Zdigits2]. fold f. lia.
  - apply binary_round_aux_is_double; [lia|]. cbn [Zdigits2]. fold f. lia.
  - apply binary_round_aux_is_double; [lia|]. cbn [Zdigits2].
    rewrite digits2_pos_iter_xO.
    replace (Zpos (digits2_pos mx) + Zpos d + f) with (Zpos (digits2_pos mx) + ex) by lia.
    fold f. lia.
Qed.

(** The quotient computed by [SFdiv_core_binary] is aligned. *)
Lemma SFdiv_core_binary_aligned m1 e1 m2 e2 :
  0 < m1 -> 0 < m2 ->
  let '(q, e', _) := SFdiv_core_binary JS.prec JS.emax m1 e1 m2 e2 in
  0 <= q /\ e' <= fexp JS.prec JS.emax (Zdigits2 q + e').
Proof.
  intros H1 H2. unfold SFdiv_core_binary.
  set (d1 := Zdigits2 m1). set (d2 := Zdigits2 m2).
  set (e' := Z.min (fexp JS.prec JS.emax (d1 + e1 - (d2 + e2))) (e1 - e2)).
  set (s := e1 - e2 - e').
  assert (Hs : 0 <= s) by (unfold s, e'; lia).
  set (m' := match s with Zpos _ => Z.shiftl m1 s | 0 => m1 | Zneg _ => 0 end).
  assert (Hm' : m' = m1 * 2 ^ s).
  { unfold m'. destruct s as [|p|p] eqn:Es; [change (2 ^ 0) with 1; lia | | lia].
    apply Z.shiftl_mul_pow2. lia. }
  pose proof (Z_div_mod m' m2 ltac:(lia)) as Hdm.
  destruct (Z.div_eucl m' m2) as [q r] eqn:Hqr.
  assert (Hq : q = m' / m2).
  { unfold Z.div. now rewrite Hqr. }
  assert (Hp : 0 < 2 ^ s) by (apply Z.pow_pos_nonneg; lia).
  assert (Hq0 : 0 <= q) by (rewrite Hq; apply Z.div_pos; nia).
  split; [assumption|].
  assert (Hdig : d1 + s - d2 <= Zdigits2 q).
  { destruct (Z.lt_ge_cases (d1 + s - d2 - 1) 0) as [Hneg|Hk].
    - pose proof (Zdigits2_nonneg q). lia.
    - destruct (Zdigits2_spec m1 H1) as [Ha [Hb Hc]].
      destruct (Zdigits2_spec m2 H2) as [Ha' [Hb' Hc']].
      fold d1 in Ha, Hb, Hc. fold d2 in Ha', Hb', Hc'.
      assert (2 ^ (d1 + s - d2 - 1) <= q).
      { rewrite Hq. apply Z.div_le_lower_bound; [lia|].
        rewrite Hm'.
        assert (Hpk : 0 < 2 ^ (d1 + s - d2 - 1)) by (apply Z.pow_pos_nonneg; lia).
        assert (E : 2 ^ d2 * 2 ^ (d1 + s - d2 - 1) = 2 ^ (d1 - 1) * 2 ^ s).
        { rewrite <- !Z.pow_add_r by lia. f_equal. lia. }
        nia. }
      pose proof (Zdigits2_ge q (d1 + s - d2 - 1) Hk). lia. }
  eapply Z.le_trans; [apply Z.le_min_l|].
  apply fexp_mono. unfold s in Hdig. lia.
Qed.

Lemma SFdiv_is_double x y : is_double (SFdiv JS.prec JS.emax x y) = true.
Proof.
  destruct x as [sx|sx| |sx mx ex], y as [sy|sy| |sy my ey]; try reflexivity.
  cbn [SFdiv].
  pose proof (SFdiv_core_binary_aligned (Zpos mx) ex (Zpos my) ey ltac:(lia) ltac:(lia))
    as H.
  destruct (SFdiv_core_binary JS.prec JS.emax (Zpos mx) ex (Zpos my) ey) as [[q e'] l].
  destruct H as [H1 H2]. now apply binary_round_aux_is_double.
Qed.

(** Every operand a handler parses is NaN, a zero, an infinity or a
    canonical binary64 value. *)
Lemma parse_decimal_is_double s x rest :
  JS.parse_decimal s = Some (x, rest) -> is_double x = true.
Proof.
  unfold JS.parse_decimal.
  destruct (match s with
            | String "+" t => (false, t)
            | String "-" t => (true, t)
            | _ => (false, s)
            end) as [neg s1].
  destruct (JS.parse_unsigned s1) as [[d r]|]; [|discriminate].
  intros [= <- _]. destruct d as [|[|m|m] p]; try reflexivity.
  cbn [JS.decimal_value]. unfold JS.round_decimal.
  destruct (0 <=? p).
  - apply binary_round_is_double.
  - apply SFdiv_is_double.
Qed.

Lemma parseFloat_is_double v : is_double (parseFloat v) = true.
Proof.
  unfold parseFloat, JS.parseFloat_string.
  destruct (JS.parse_decimal _) as [[x rest]|] eqn:H; [|reflexivity].
  now apply parse_decimal_is_double in H.
Qed.

(* ================================================================== *)
(** * [/exp]                                                            *)
(* ================================================================== *)

(** C6, as stated, fails: a negative base beyond the safe range is stopped
    by the range rule before the exponent is looked at
    ([/exp?num1=-1e300&num2=0.5] gets the out-of-range message). *)
Lemma exp_negative_shadowed_by_rule3 :
  (let req := {| query := [("num1", QString "-1e300"); ("num2", QString "0.5")] |} in
   JS.lt (operand "num1" req) zero = true /\
   JS.Number_toString (operand "num2" req) = "0.5" /\
   JS.digits_dot_digits_test "0.5" = true /\
   fst (get_exp (fun _ _ => JS.NaN) req listening) =
   status_json 400 (JMessage "Either numbers are too large or too small") /\
   fst (GET (fun _ _ => JS.NaN) "/exp?num1=-1e300&num2=0.5" listening) =
   Some (status_json 400 (JMessage "Either numbers are too large or too small"))) /\
  ~ (forall pow_approx req st,
       JS.lt (operand "num1" req) zero = true ->
       JS.digits_dot_digits_test (JS.Number_toString (operand "num2" req)) = true ->
       fst (get_exp pow_approx req st) =
       status_json 400 (JMessage "If base is negative, exponent cannot be a fraction")).
Proof.
  split; [cbv zeta; repeat split; vm_compute; reflexivity|].
  intros H.
  specialize (H (fun _ _ => JS.NaN)
                {| query := [("num1", QString "-1e300"); ("num2", QString "0.5")] |}
                listening eq_refl eq_refl).
  vm_compute in H. discriminate.
Qed.

(** C6, amended: on [/exp], with both operands numbers within the safe
    range, a negative base together with an exponent whose decimal string
    matches [\d+\.\d+] gets 400 with the negative-base message, and any base
    with an integral exponent gets 200 with the power;
    [/exp?num1=-2&num2=0.5] gets the 400 and [/exp?num1=2&num2=3] gets 200
    with result 8. *)
Theorem exp_responses pow_approx req st :
  let num1 := operand "num1" req in
  let num2 := operand "num2" req in
  not_a_number num1 num2 = false ->
  out_of_range num1 = false ->
  out_of_range num2 = false ->
  (JS.lt num1 zero = true ->
   JS.digits_dot_digits_test (JS.Number_toString num2) = true ->
   fst (get_exp pow_approx req st) =
   status_json 400 (JMessage "If base is negative, exponent cannot be a fraction")) /\
  (JS.is_integral num2 = true ->
   fst (get_exp pow_approx req st) =
   {| status := 200; body := JResult (JS.Math_pow pow_approx num1 num2) |}) /\
  fst (GET pow_approx "/exp?num1=-2&num2=0.5" st) =
    Some (status_json 400 (JMessage "If base is negative, exponent cannot be a fraction")) /\
  fst (GET pow_approx "/exp?num1=2&num2=3" st) =
    Some {| status := 200; body := JResult (JS.of_Z 8) |}.
Proof.
  intros num1 num2 Hn H1 H2. rewrite get_exp_response. cbv zeta. fold num1 num2.
  rewrite handleErrors_past_rule3 by (assumption || reflexivity || now rewrite H1, H2).
  change (String.eqb "^" "^") with true. cbv iota zeta.
  split; [|split; [|split; reflexivity]].
  - intros -> ->. reflexivity.
  - intros Hi.
    rewrite (integral_exponent_no_match num2 (parseFloat_is_double _) H2 Hi),
      !andb_false_r.
    reflexivity.
Qed.

Lemma exp_responses_witness :
  let req := {| query := [("num1", QString "-2"); ("num2", QString "3")] |} in
  not_a_number (operand "num1" req) (operand "num2" req) = false /\
  out_of_range (operand "num1" req) = false /\
  out_of_range (operand "num2" req) = false /\
  JS.is_integral (operand "num2" req) = true /\
  fst (get_exp (fun _ _ => JS.NaN) req listening) =
  {| status := 200; body := JResult (JS.of_Z (-8)) |}.
Proof.
  cbv zeta. do 4 (split; [reflexivity|]).
  destruct (exp_responses (fun _ _ => JS.NaN)
              {| query := [("num1", QString "-2"); ("num2", QString "3")] |} listening
              eq_refl eq_refl eq_refl) as (_ & H & _).
  rewrite H; reflexivity.
Defined.

(* ================================================================== *)
(** * Outcomes and records                                              *)
(* ================================================================== *)

(** Case analysis along the rules of [handleErrors]. *)
Local Ltac by_rules op a b st :=
  let H1 := fresh "Hnan" in
  let H2 := fresh "Hdiv" in
  let H3 := fresh "Hrange" in
  destruct (not_a_number a b) eqn:H1;
  [ rewrite (handleErrors_rule1 op a b st H1)
  | destruct (String.eqb op "/" || String.eqb op "%" && JS.eq b zero) eqn:H2;
    [ rewrite (handleErrors_rule2 op a b st H1 H2)
    | destruct (out_of_range a || out_of_range b) eqn:H3;
      [ rewrite (handleErrors_rule3 op a b st H1 H2 H3)
      | rewrite (handleErrors_past_rule3 op a b st H1 H2 H3) ] ] ].

Lemma error_logged_logged msg st : logged Winston.error st (error_logged msg st).
Proof. exists msg. reflexivity. Qed.

Lemma error_logged_global msg st : global_n2 (error_logged msg st) = global_n2 st.
Proof. reflexivity. Qed.

(** The outcome table of the validator: a code from 1 to 6 comes with
    exactly one error record, 0 and [undefined] with none; 2 is kept for
    divide and modulo, 4 and 5 for the exponent, 6 for the square root;
    [undefined] is what the exponent and the square root get in place of 0. *)
Theorem validator_outcomes operator num1 num2 st :
  let v := fst (handleErrors operator num1 num2 st) in
  let st' := snd (handleErrors operator num1 num2 st) in
  (v = VNumber 1 /\ logged Winston.error st st') \/
  (v = VNumber 2 /\ (operator = "/" \/ operator = "%") /\ logged Winston.error st st') \/
  (v = VNumber 3 /\ operator <> "/" /\ logged Winston.error st st') \/
  ((v = VNumber 4 \/ v = VNumber 5) /\ operator = "^" /\ logged Winston.error st st') \/
  (v = VNumber 6 /\ operator = "sqrt" /\ logged Winston.error st st') \/
  (v = VUndefined /\ (operator = "^" \/ operator = "sqrt") /\ logger st' = logger st) \/
  (v = VNumber 0 /\ operator <> "/" /\ operator <> "^" /\ operator <> "sqrt" /\ st' = st).
Proof.
  cbv zeta. by_rules operator num1 num2 st.
  - left. split; [reflexivity | apply error_logged_logged].
  - right; left. split; [reflexivity|]. split; [|apply error_logged_logged].
    apply orb_true_iff in Hdiv as [H|H].
    + left. now apply String.eqb_eq.
    + right. apply andb_true_iff in H as [H _]. now apply String.eqb_eq.
  - right; right; left. split; [reflexivity|]. split; [|apply error_logged_logged].
    apply orb_false_iff in Hdiv as [H _]. now apply String.eqb_neq.
  - apply orb_false_iff in Hdiv as [Hd _]. apply String.eqb_neq in Hd.
    cbv zeta.
    destruct (String.eqb operator "^") eqn:Hexp.
    { apply String.eqb_eq in Hexp.
      destruct (JS.lt num1 zero && _).
      { do 3 right; left. repeat split; auto. eexists; reflexivity. }
      destruct (JS.eq num1 zero && _ && _).
      { do 3 right; left. repeat split; auto. eexists; reflexivity. }
      do 5 right; left. repeat split; auto. }
    apply String.eqb_neq in Hexp.
    destruct (String.eqb operator "sqrt") eqn:Hsqrt.
    { apply String.eqb_eq in Hsqrt.
      destruct (JS.lt num1 zero).
      { do 4 right; left. repeat split; auto. eexists; reflexivity. }
      do 5 right; left. repeat split; auto. }
    apply String.eqb_neq in Hsqrt.
    do 6 right. repeat split; auto.
Qed.


Local Ltac solve_one_record :=
  cbn [fst snd status body status_json send_json loose_eq Z.eqb Pos.eqb
       String.eqb Ascii.eqb Bool.eqb];
  first
    [ left; split; [reflexivity|]; split;
      [eexists; reflexivity | apply error_logged_logged || (eexists; reflexivity)]
    | right; split; [reflexivity|]; split; eexists; reflexivity ].

Local Ltac absurd_rule2 :=
  match goal with
  | H : String.eqb _ "/" || String.eqb _ "%" && _ = true |- _ =>
      cbn [String.eqb Ascii.eqb Bool.eqb orb andb] in H; discriminate H
  end.

Local Ltac handler_one_record h op :=
  intros req st; unfold one_record, h, bind, ret, logger_info;
  match goal with
  | |- context [handleErrors op ?a ?b st] => by_rules op a b st
  end;
  try absurd_rule2;
  cbv zeta;
  cbn [String.eqb Ascii.eqb Bool.eqb];
  repeat match goal with
         | |- context [if ?c then (_, _) else _] => destruct c
         end;
  solve_one_record.

Lemma get_add_one_record : forall req st, one_record (get_add req st) st.
Proof. handler_one_record get_add "+". Qed.

Lemma get_sub_one_record : forall req st, one_record (get_sub req st) st.
Proof. handler_one_record get_sub "-". Qed.

Lemma get_mul_one_record : forall req st, one_record (get_mul req st) st.
Proof. handler_one_record get_mul "*". Qed.

Lemma get_div_one_record : forall req st, one_record (get_div req st) st.
Proof. handler_one_record get_div "/". Qed.

Lemma get_exp_one_record pow_approx :
  forall req st, one_record (get_exp pow_approx req st) st.
Proof. handler_one_record get_exp "^". Qed.

Lemma get_sqrt_one_record : forall req st, one_record (get_sqrt req st) st.
Proof. handler_one_record get_sqrt "sqrt". Qed.

Lemma get_mod_one_record : forall req st, one_record (get_mod req st) st.
Proof. handler_one_record get_mod "%". Qed.

Lemma app_get_cases pow_approx path h :
  app_get pow_approx path = Some h ->
  (path = "/add" /\ h = get_add) \/ (path = "/sub" /\ h = get_sub) \/
  (path = "/mul" /\ h = get_mul) \/ (path = "/div" /\ h = get_div) \/
  (path = "/exp" /\ h = get_exp pow_approx) \/ (path = "/sqrt" /\ h = get_sqrt) \/
  (path = "/mod" /\ h = get_mod).
Proof.
  unfold app_get.
  repeat match goal with
         | |- context [if String.eqb path ?p then _ else _] =>
             destruct (String.eqb_spec path p)
         end;
    intros [= <-]; tauto.
Qed.

(** Every route answers 400 with a message or 200 with a result, and leaves
    exactly one record for the request on the logger: an error record under
    a 400, an info record under a 200. *)
Theorem one_record_per_request pow_approx path h :
  app_get pow_approx path = Some h ->
  forall req st, one_record (h req st) st.
Proof.
  intros H.
  destruct (app_get_cases _ _ _ H) as [[_ ->]|[[_ ->]|[[_ ->]|[[_ ->]|[[_ ->]|[[_ ->]|[_ ->]]]]]]].
  - apply get_add_one_record.
  - apply get_sub_one_record.
  - apply get_mul_one_record.
  - apply get_div_one_record.
  - apply get_exp_one_record.
  - apply get_sqrt_one_record.
  - apply get_mod_one_record.
Qed.

Lemma one_record_per_request_witness :
  app_get (fun _ _ => JS.NaN) "/mod" = Some get_mod /\
  one_record (get_mod {| query := [("num1", QString "7"); ("num2", QString "0")] |}
                listening) listening.
Proof.
  split; [reflexivity|].
  apply (one_record_per_request (fun _ _ => JS.NaN) "/mod" get_mod). reflexivity.
Defined.

(** ** The three transports over a run *)








(** ** Responses and the state they are computed in *)

Lemma handler_response_state pow_approx path h :
  app_get pow_approx path = Some h ->
  forall req st st', fst (h req st) = fst (h req st').
Proof.
  intros H req st st'.
  destruct (app_get_cases _ _ _ H) as [[_ ->]|[[_ ->]|[[_ ->]|[[_ ->]|[[_ ->]|[[_ ->]|[_ ->]]]]]]].
  - rewrite !get_add_response. cbv zeta.
    now rewrite (handleErrors_code_state "+" _ _ st st').
  - rewrite !get_sub_response. cbv zeta.
    now rewrite (handleErrors_code_state "-" _ _ st st').
  - rewrite !get_mul_response. cbv zeta.
    now rewrite (handleErrors_code_state "*" _ _ st st').
  - rewrite !get_div_response. cbv zeta.
    now rewrite (handleErrors_code_state "/" _ _ st st').
  - rewrite !get_exp_response. cbv zeta.
    now rewrite (handleErrors_code_state "^" _ _ st st').
  - rewrite !get_sqrt_response. cbv zeta.
    now rewrite (handleErrors_code_state "sqrt" _ _ st st').
  - rewrite !get_mod_response. cbv zeta.
    now rewrite (handleErrors_code_state "%" _ _ st st').
Qed.

Lemma GET_response_state pow_approx url st st' :
  fst (GET pow_approx url st) = fst (GET pow_approx url st').
Proof.
  unfold GET. destruct (parse_url url) as [path req].
  destruct (app_get pow_approx path) as [h|] eqn:Hh; [|reflexivity].
  unfold bind, ret.
  pose proof (handler_response_state _ _ _ Hh req st st') as E.
  destruct (h req st), (h req st'). cbn [fst] in *. now subst.
Qed.

(** What a request is answered does not depend on the requests served
    before it: a handler gives the same response in every state of the
    process, and so does a whole run. *)
Theorem responses_ignore_history pow_approx :
  (forall path h, app_get pow_approx path = Some h ->
     forall req st st', fst (h req st) = fst (h req st')) /\
  (forall urls st st', fst (serve pow_approx urls st) = fst (serve pow_approx urls st')).
Proof.
  split; [apply handler_response_state|].
  induction urls as [|url rest IH]; intros st st'; [reflexivity|].
  cbn [serve]. unfold bind, ret.
  pose proof (GET_response_state pow_approx url st st') as E.
  destruct (GET pow_approx url st) as [r st1], (GET pow_approx url st') as [r' st1'].
  cbn [fst] in E. subst r'.
  specialize (IH st1 st1').
  destruct (serve pow_approx rest st1), (serve pow_approx rest st1').
  cbn [fst] in *. now subst.
Qed.

(** ** The footprint on the global object *)

Local Ltac handler_global h op :=
  intros req st; unfold h, bind, ret, logger_info;
  match goal with
  | |- context [handleErrors op ?a ?b st] => by_rules op a b st
  end;
  try absurd_rule2;
  cbv zeta;
  cbn [String.eqb Ascii.eqb Bool.eqb];
  repeat match goal with
         | |- context [if ?c then (_, _) else _] => destruct c
         end;
  reflexivity.

Lemma get_add_global : forall req st, global_n2 (snd (get_add req st)) = global_n2 st.
Proof. handler_global get_add "+". Qed.

Lemma get_sub_global : forall req st, global_n2 (snd (get_sub req st)) = global_n2 st.
Proof. handler_global get_sub "-". Qed.

Lemma get_mul_global : forall req st, global_n2 (snd (get_mul req st)) = global_n2 st.
Proof. handler_global get_mul "*". Qed.

Lemma get_div_global : forall req st, global_n2 (snd (get_div req st)) = global_n2 st.
Proof. handler_global get_div "/". Qed.

Lemma get_sqrt_global : forall req st, global_n2 (snd (get_sqrt req st)) = global_n2 st.
Proof. handler_global get_sqrt "sqrt". Qed.

Lemma get_mod_global : forall req st, global_n2 (snd (get_mod req st)) = global_n2 st.
Proof. handler_global get_mod "%". Qed.

Lemma get_exp_global pow_approx req st :
  global_n2 (snd (get_exp pow_approx req st)) =
  let num1 := operand "num1" req in
  let num2 := operand "num2" req in
  if not_a_number num1 num2 || (out_of_range num1 || out_of_range num2)
  then global_n2 st
  else Some (JS.Number_toString num2).
Proof.
  unfold get_exp, operand, bind, ret, logger_info.
  match goal with
  | |- context [handleErrors "^" ?a ?b st] => by_rules "^" a b st
  end;
    try absurd_rule2; cbv zeta; cbn [String.eqb Ascii.eqb Bool.eqb orb];
    repeat match goal with
           | |- context [if ?c then (_, _) else _] => destruct c
           end;
    reflexivity.
Qed.

(** The only route that touches the global object is [/exp], and only for
    operands that are numbers within the range: it then leaves the decimal
    string of the exponent in [n2], whatever the response; every other
    request leaves the global object as it found it. *)
Theorem global_footprint pow_approx path h :
  app_get pow_approx path = Some h ->
  forall req st,
    let num1 := operand "num1" req in
    let num2 := operand "num2" req in
    global_n2 (snd (h req st)) =
    if String.eqb path "/exp" && negb (not_a_number num1 num2)
       && negb (out_of_range num1 || out_of_range num2)
    then Some (JS.Number_toString num2)
    else global_n2 st.
Proof.
  intros H req st. cbv zeta.
  destruct (app_get_cases _ _ _ H)
    as [[-> ->]|[[-> ->]|[[-> ->]|[[-> ->]|[[-> ->]|[[-> ->]|[-> ->]]]]]]];
    cbn [String.eqb Ascii.eqb Bool.eqb andb].
  - apply get_add_global.
  - apply get_sub_global.
  - apply get_mul_global.
  - apply get_div_global.
  - rewrite get_exp_global. cbv zeta.
    destruct (not_a_number _ _), (out_of_range _ || out_of_range _); reflexivity.
  - apply get_sqrt_global.
  - apply get_mod_global.
Qed.

Lemma global_footprint_witness :
  app_get (fun _ _ => JS.NaN) "/exp" = Some (get_exp (fun _ _ => JS.NaN)) /\
  global_n2 (snd (get_exp (fun _ _ => JS.NaN)
                    {| query := [("num1", QString "-2"); ("num2", QString "0.5")] |}
                    listening)) = Some "0.5".
Proof.
  split; [reflexivity|].
  rewrite (global_footprint (fun _ _ => JS.NaN) "/exp" (get_exp (fun _ _ => JS.NaN))
             eq_refl).
  reflexivity.
Defined.

(** ** The exponent rules at their edges *)

Lemma negative_in_range x :
  JS.lt x zero = true -> out_of_range x = false ->
  exists m e, x = S754_finite true m e.
Proof.
  destruct x as [[]|[]| |[] m e]; try discriminate; eauto.
Qed.

(** The fraction test of [/exp] reads the decimal string, so a fractional
    exponent whose string has no digit-dot-digit passes it: with a negative
    base, both operands within the range, the request is answered 200 and
    the result is NaN. *)
Theorem exp_fraction_without_dot pow_approx req st :
  let num1 := operand "num1" req in
  let num2 := operand "num2" req in
  JS.lt num1 zero = true ->
  out_of_range num1 = false ->
  JS.isNaN num2 = false ->
  out_of_range num2 = false ->
  JS.is_integral num2 = false ->
  JS.digits_dot_digits_test (JS.Number_toString num2) = false ->
  fst (get_exp pow_approx req st) = {| status := 200; body := JResult JS.NaN |}.
Proof.
  intros num1 num2 Hneg Hr1 Hn2 Hr2 Hint Htest.
  destruct (negative_in_range num1 Hneg Hr1) as (m1 & e1 & E1).
  rewrite get_exp_response. cbv zeta. fold num1 num2.
  rewrite handleErrors_past_rule3;
    [| unfold not_a_number; rewrite E1, Hn2; reflexivity
     | reflexivity
     | now rewrite Hr1, Hr2 ].
  change (String.eqb "^" "^") with true. cbv iota zeta.
  rewrite Htest, !andb_false_r. cbn [fst loose_eq].
  unfold send_json, status_json. do 2 f_equal.
  rewrite E1.
  destruct num2 as [[]|[]| |s2 m2 e2]; try discriminate.
  cbn [JS.Math_pow]. rewrite Hint. reflexivity.
Qed.

Lemma exp_fraction_without_dot_witness :
  let req := {| query := [("num1", QString "-2"); ("num2", QString "1e-7")] |} in
  JS.Number_toString (operand "num2" req) = "1e-7" /\
  fst (get_exp (fun _ _ => JS.pos_zero) req listening) =
  {| status := 200; body := JResult JS.NaN |}.
Proof.
  cbv zeta. split; [vm_compute; reflexivity|].
  apply (exp_fraction_without_dot (fun _ _ => JS.pos_zero)
           {| query := [("num1", QString "-2"); ("num2", QString "1e-7")] |} listening);
    vm_compute; reflexivity.
Defined.

(** A zero base with a negative integral exponent is no error for [/exp]:
    both within the range, the request is answered 200 and the result is an
    infinity (negative for the base [-0] and an odd exponent).  The rule for
    the zero base only stops exponents whose decimal string is below zero
    and has digit-dot-digit. *)
Theorem exp_zero_base pow_approx req st :
  let num1 := operand "num1" req in
  let num2 := operand "num2" req in
  JS.eq num1 zero = true ->
  JS.isNaN num2 = false ->
  out_of_range num2 = false ->
  (JS.lt num2 zero = true -> JS.is_integral num2 = true ->
   exists s,
     num1 = S754_zero s /\
     fst (get_exp pow_approx req st) =
     {| status := 200;
        body := JResult (S754_infinity (s && JS.is_odd_integral num2)) |}) /\
  (JS.string_lt_number (JS.Number_toString num2) zero = true ->
   JS.digits_dot_digits_test (JS.Number_toString num2) = true ->
   fst (get_exp pow_approx req st) =
   status_json 400 (JMessage "If base is 0, exponent cannot be a negative fraction")).
Proof.
  intros num1 num2 Hz Hn2 Hr2.
  assert (E1 : exists s, num1 = S754_zero s).
  { destruct num1 as [s|[]| |[] m e]; try discriminate. eauto. }
  destruct E1 as [s E1].
  rewrite get_exp_response. cbv zeta. fold num1 num2.
  rewrite handleErrors_past_rule3;
    [| unfold not_a_number; rewrite E1, Hn2; reflexivity
     | reflexivity
     | rewrite Hr2, E1; destruct s; reflexivity ].
  change (String.eqb "^" "^") with true. cbv iota zeta.
  replace (JS.lt num1 zero) with false by (rewrite E1; destruct s; reflexivity).
  rewrite Hz. cbn [andb].
  split.
  - intros Hneg Hint. exists s. split; [assumption|].
    rewrite (integral_exponent_no_match num2 (parseFloat_is_double _) Hr2 Hint),
      andb_false_r.
    cbn [fst loose_eq]. unfold send_json, status_json. do 2 f_equal.
    destruct (negative_in_range num2 Hneg Hr2) as (m2 & e2 & E2).
    rewrite E1, E2. reflexivity.
  - intros -> ->. reflexivity.
Qed.

Lemma exp_zero_base_witness :
  let req := {| query := [("num1", QString "-0"); ("num2", QString "-3")] |} in
  JS.eq (operand "num1" req) zero = true /\
  fst (get_exp (fun _ _ => JS.pos_zero) req listening) =
  {| status := 200; body := JResult (S754_infinity true) |}.
Proof.
  cbv zeta. split; [reflexivity|].
  destruct (exp_zero_base (fun _ _ => JS.pos_zero)
              {| query := [("num1", QString "-0"); ("num2", QString "-3")] |} listening
              eq_refl eq_refl eq_refl) as [H _].
  destruct (H eq_refl eq_refl) as (s & Hs & Hr).
  rewrite Hr. injection Hs as <-. reflexivity.
Defined.

(** ** The range rule *)

(** The four comparisons of the range rule test the magnitude of each
    operand against [2^53 - 1]: an operand and its opposite are treated
    alike, both infinities are beyond the range and NaN is not. *)
Theorem range_rule_tests_magnitude x :
  out_of_range x = JS.gt (SFabs x) JS.MAX_SAFE_INTEGER /\
  out_of_range (SFopp x) = out_of_range x /\
  (forall s, out_of_range (S754_infinity s) = true) /\
  out_of_range JS.NaN = false.
Proof.
  split; [apply out_of_range_magnitude|].
  split; [|split; [intros []; reflexivity | reflexivity]].
  rewrite !out_of_range_magnitude. destruct x; reflexivity.
Qed.

(* ================================================================== *)
(** * Results that are always finite                                    *)
(* ================================================================== *)

(** ** Rounding does not overflow below [2^1023] *)

Lemma Zdigits2_le m k : 0 <= k -> 0 <= m < 2 ^ k -> Zdigits2 m <= k.
Proof.
  intros Hk Hm. destruct (Z.eq_dec m 0) as [->|]; [cbn; lia|].
  destruct (Zdigits2_spec m) as [H1 [H2 H3]]; [lia|].
  destruct (Z.le_gt_cases (Zdigits2 m) k); [assumption|].
  assert (2 ^ k <= 2 ^ (Zdigits2 m - 1)) by (apply Z.pow_le_mono_r; lia). lia.
Qed.

Lemma Zdigits2_succ_le m : 0 <= m -> Zdigits2 (m + 1) <= Zdigits2 m + 1.
Proof.
  intros Hm. pose proof (Zdigits2_nonneg m).
  apply Zdigits2_le; [lia|]. split; [lia|].
  rewrite Z.pow_add_r by lia. change (2 ^ 1) with 2.
  destruct (Z.eq_dec m 0) as [->|]; [cbn; lia|].
  destruct (Zdigits2_spec m) as [H1 [H2 H3]]; lia.
Qed.

Lemma Zdigits2_abs m : Zdigits2 (Z.abs m) = Zdigits2 m.
Proof. destruct m; reflexivity. Qed.

Lemma shr_fexp_bound m e l :
  0 <= m ->
  e <= fexp JS.prec JS.emax (Zdigits2 m + e) ->
  let '(mrs, e') := shr_fexp JS.prec JS.emax m e l in
  Zdigits2 (shr_m mrs) + e' <= Z.max (Zdigits2 m + e) (-1074).
Proof.
  intros Hm He.
  destruct (shr_fexp_m m e l Hm He) as [H1 H2].
  destruct (shr_fexp JS.prec JS.emax m e l) as [mrs e']. cbn [fst snd] in H1, H2.
  set (f := fexp JS.prec JS.emax (Zdigits2 m + e)) in *.
  rewrite H1, H2.
  destruct (Z.lt_ge_cases (f - e) (Zdigits2 m)) as [Hlt|Hge].
  - assert (0 < m) by (destruct m; cbn in Hlt; lia).
    rewrite Zdigits2_shifted by lia. lia.
  - rewrite Zdigits2_small by assumption. cbn [Zdigits2].
    revert Hge. unfold f, fexp, emin, JS.prec, JS.emax.
    pose proof (Zdigits2_nonneg m). lia.
Qed.

Lemma binary_round_aux_finite sx mx ex lx :
  0 <= mx ->
  ex <= fexp JS.prec JS.emax (Zdigits2 mx + ex) ->
  Zdigits2 mx + ex <= 1023 ->
  is_finite (binary_round_aux JS.prec JS.emax sx mx ex lx) = true.
Proof.
  intros Hm He Hb. unfold binary_round_aux.
  pose proof (shr_fexp_canonical mx ex lx Hm He) as H1.
  pose proof (shr_fexp_bound mx ex lx Hm He) as B1.
  destruct (shr_fexp JS.prec JS.emax mx ex lx) as [mrs' e'].
  destruct H1 as [H1 H1'].
  set (m2 := round_nearest_even (shr_m mrs') (loc_of_shr_record mrs')).
  assert (Hm2 : 0 <= m2 /\ Zdigits2 (shr_m mrs') <= Zdigits2 m2 <= Zdigits2 (shr_m mrs') + 1).
  { unfold m2.
    destruct (round_nearest_even_cases (shr_m mrs') (loc_of_shr_record mrs')) as [->| ->].
    - lia.
    - pose proof (Zdigits2_succ_mono _ H1). pose proof (Zdigits2_succ_le _ H1). lia. }
  assert (He2 : e' <= fexp JS.prec JS.emax (Zdigits2 m2 + e')).
  { rewrite <- H1' at 1. apply fexp_mono. lia. }
  pose proof (shr_fexp_m m2 e' loc_Exact (proj1 Hm2) He2) as [H2 H2'].
  destruct (shr_fexp JS.prec JS.emax m2 e' loc_Exact) as [mrs'' e'']. cbn [fst snd] in H2, H2'.
  assert (Hnn : 0 <= shr_m mrs'').
  { rewrite H2. apply Z.div_pos; [lia|]. apply Z.pow_pos_nonneg; lia. }
  assert (He'' : e'' <= JS.emax - JS.prec).
  { rewrite H2'. unfold fexp, emin, JS.prec, JS.emax. lia. }
  destruct (shr_m mrs'') as [|m|m]; [reflexivity| |lia].
  apply Z.leb_le in He''. rewrite He''. reflexivity.
Qed.

Lemma binary_round_finite sx mx ex :
  Zpos (digits2_pos mx) + ex <= 1023 ->
  is_finite (binary_round JS.prec JS.emax sx mx ex) = true.
Proof.
  intros Hb. unfold binary_round, shl_align.
  set (f := fexp JS.prec JS.emax (Zpos (digits2_pos mx) + ex)).
  destruct (f - ex) as [|d|d] eqn:Hd.
  - apply binary_round_aux_finite; cbn [Zdigits2]; fold f; lia.
  - apply binary_round_aux_finite; cbn [Zdigits2]; fold f; lia.
  - apply binary_round_aux_finite; cbn [Zdigits2]; rewrite ?digits2_pos_iter_xO; [lia| |lia].
    replace (Zpos (digits2_pos mx) + Zpos d + f) with (Zpos (digits2_pos mx) + ex) by lia.
    fold f. lia.
Qed.

Lemma binary_normalize_finite m e sz :
  Zdigits2 m + e <= 1023 ->
  is_finite (binary_normalize JS.prec JS.emax m e sz) = true.
Proof.
  destruct m as [|p|p]; cbn [binary_normalize Zdigits2]; intros H;
    [reflexivity | now apply binary_round_finite ..].
Qed.

(** ** Operands within the range *)

Lemma shl_align_value m e e' :
  e' <= e -> Zpos (fst (shl_align m e e')) = Zpos m * 2 ^ (e - e').
Proof.
  intros H. unfold shl_align.
  destruct (e' - e) as [|d|d] eqn:Hd; cbn [fst]; try lia.
  - replace (e - e') with 0 by lia. change (2 ^ 0) with 1. lia.
  - replace (e - e') with (Zpos d) by lia.
    clear. induction d as [|d IH] using Pos.peano_ind.
    + cbn [Pos.iter]. change (2 ^ 1) with 2. lia.
    + rewrite Pos.iter_succ, Pos2Z.inj_succ, Z.pow_succ_r by lia.
      rewrite Pos2Z.inj_xO, IH. ring.
Qed.


Lemma safe_operand_intro x :
  is_double x = true -> JS.isNaN x = false -> out_of_range x = false -> safe_operand x.
Proof.
  intros Hd Hn Hr. destruct x as [s|s| |s m e].
  - constructor.
  - destruct s; discriminate.
  - discriminate.
  - pose proof (in_range_exponent _ _ _ Hr) as He.
    constructor; [apply (double_mantissa_bound s m e Hd He) | assumption | assumption].
Qed.

Lemma operand_safe name req other :
  not_a_number (operand name req) other = false ->
  out_of_range (operand name req) = false ->
  safe_operand (operand name req).
Proof.
  intros Hn Hr. apply orb_false_iff in Hn as [Hn _].
  apply safe_operand_intro; [apply parseFloat_is_double | assumption | assumption].
Qed.

Lemma double_exponent_bounds s m e :
  is_double (S754_finite s m e) = true ->
  -1074 <= e /\ (e = -1074 \/ Zpos (digits2_pos m) = 53).
Proof.
  unfold is_double, valid_binary, bounded, canonical_mantissa, fexp, emin, JS.prec, JS.emax.
  intros H. apply andb_true_iff in H as [H _]. apply Z.eqb_eq in H. lia.
Qed.

(** ** Sums, differences and products *)

Lemma aligned_sum_bound m1 e1 m2 e2 (x1 x2 : Z) :
  Zpos m1 < 2 ^ 53 -> e1 <= 0 -> Zpos m2 < 2 ^ 53 -> e2 <= 0 ->
  Z.abs x1 = Zpos (fst (shl_align m1 e1 (Z.min e1 e2))) ->
  Z.abs x2 = Zpos (fst (shl_align m2 e2 (Z.min e1 e2))) ->
  Zdigits2 (x1 + x2) + Z.min e1 e2 <= 1023 /\ Zdigits2 (x1 - x2) + Z.min e1 e2 <= 1023.
Proof.
  intros Hm1 He1 Hm2 He2 Hx1 Hx2.
  set (ez := Z.min e1 e2) in *.
  rewrite shl_align_value in Hx1, Hx2 by (unfold ez; lia).
  assert (HP : 0 < 2 ^ (- ez)) by (apply Z.pow_pos_nonneg; lia).
  assert (H1 : 0 < 2 ^ (e1 - ez) <= 2 ^ (- ez)).
  { split; [apply Z.pow_pos_nonneg; unfold ez; lia|].
    apply Z.pow_le_mono_r; unfold ez; lia. }
  assert (H2 : 0 < 2 ^ (e2 - ez) <= 2 ^ (- ez)).
  { split; [apply Z.pow_pos_nonneg; unfold ez; lia|].
    apply Z.pow_le_mono_r; unfold ez; lia. }
  assert (E : 2 ^ (54 - ez) = 2 * 2 ^ 53 * 2 ^ (- ez)).
  { replace (54 - ez) with (1 + 53 + - ez) by lia.
    rewrite !Z.pow_add_r by (unfold ez; lia). reflexivity. }
  assert (B1 : Z.abs x1 < 2 ^ 53 * 2 ^ (- ez)) by (rewrite Hx1; nia).
  assert (B2 : Z.abs x2 < 2 ^ 53 * 2 ^ (- ez)) by (rewrite Hx2; nia).
  split.
  - rewrite <- Zdigits2_abs.
    assert (Zdigits2 (Z.abs (x1 + x2)) <= 54 - ez); [|lia].
    apply Zdigits2_le; [unfold ez; lia|]. rewrite E. lia.
  - rewrite <- Zdigits2_abs.
    assert (Zdigits2 (Z.abs (x1 - x2)) <= 54 - ez); [|lia].
    apply Zdigits2_le; [unfold ez; lia|]. rewrite E. lia.
Qed.

Lemma abs_cond_Zopp s p : Z.abs (cond_Zopp s (Zpos p)) = Zpos p.
Proof. destruct s; reflexivity. Qed.

Lemma add_finite x y :
  safe_operand x -> safe_operand y -> is_finite (JS.add x y) = true.
Proof.
  intros [sx|sx mx ex Hmx Hex _] [sy|sy my ey Hmy Hey _]; unfold JS.add; cbn [SFadd].
  - destruct sx, sy; reflexivity.
  - reflexivity.
  - reflexivity.
  - apply binary_normalize_finite.
    apply (aligned_sum_bound mx ex my ey); auto using abs_cond_Zopp.
Qed.

Lemma sub_finite x y :
  safe_operand x -> safe_operand y -> is_finite (JS.sub x y) = true.
Proof.
  intros [sx|sx mx ex Hmx Hex _] [sy|sy my ey Hmy Hey _]; unfold JS.sub; cbn [SFsub].
  - destruct sx, sy; reflexivity.
  - reflexivity.
  - reflexivity.
  - apply binary_normalize_finite.
    apply (aligned_sum_bound mx ex my ey); auto using abs_cond_Zopp.
Qed.

Lemma mul_finite x y :
  safe_operand x -> safe_operand y -> is_finite (JS.mul x y) = true.
Proof.
  intros [sx|sx mx ex Hmx Hex Hdx] [sy|sy my ey Hmy Hey Hdy]; unfold JS.mul; cbn [SFmul];
    try reflexivity.
  pose proof (double_exponent_bounds _ _ _ Hdx) as [Hx1 Hx2].
  pose proof (double_exponent_bounds _ _ _ Hdy) as [Hy1 Hy2].
  destruct (Zdigits2_spec (Zpos mx)) as [Dx1 [Dx2 Dx3]]; [lia|].
  destruct (Zdigits2_spec (Zpos my)) as [Dy1 [Dy2 Dy3]]; [lia|].
  cbn [Zdigits2] in *.
  set (dx := Zpos (digits2_pos mx)) in *. set (dy := Zpos (digits2_pos my)) in *.
  rewrite Pos2Z.inj_mul.
  assert (Hup : Zdigits2 (Zpos mx * Zpos my) <= 106).
  { apply Zdigits2_le; [lia|].
    change (2 ^ 106) with (2 ^ 53 * 2 ^ 53). nia. }
  assert (Hlow : dx + dy - 1 <= Zdigits2 (Zpos mx * Zpos my)).
  { pose proof (Zdigits2_ge (Zpos mx * Zpos my) (dx + dy - 2) ltac:(lia)) as H.
    assert (E : 2 ^ (dx + dy - 2) = 2 ^ (dx - 1) * 2 ^ (dy - 1)).
    { rewrite <- Z.pow_add_r by lia. f_equal. lia. }
    assert (0 < 2 ^ (dx - 1)) by (apply Z.pow_pos_nonneg; lia).
    assert (0 < 2 ^ (dy - 1)) by (apply Z.pow_pos_nonneg; lia).
    specialize (H ltac:(rewrite E; nia)). lia. }
  apply binary_round_aux_finite; [lia| |lia].
  unfold fexp, emin, JS.prec, JS.emax. lia.
Qed.

(** ** Remainders and square roots *)

Lemma rem_finite x y :
  safe_operand x -> safe_operand y -> JS.eq y zero = false ->
  is_finite (JS.rem x y) = true.
Proof.
  intros [sx|sx mx ex Hmx Hex _] [sy|sy my ey Hmy Hey _] Hz; try discriminate Hz;
    cbn [JS.rem]; [reflexivity|].
  apply binary_normalize_finite.
  set (e := Z.min ex ey).
  rewrite !Z.shiftl_mul_pow2 by (unfold e; lia).
  set (A := Zpos mx * 2 ^ (ex - e)). set (B := Zpos my * 2 ^ (ey - e)).
  assert (HP : 0 < 2 ^ (- e)) by (apply Z.pow_pos_nonneg; unfold e; lia).
  assert (HA : 0 < 2 ^ (ex - e)) by (apply Z.pow_pos_nonneg; unfold e; lia).
  assert (HB : 0 < 2 ^ (ey - e) <= 2 ^ (- e)).
  { split; [apply Z.pow_pos_nonneg; unfold e; lia|].
    apply Z.pow_le_mono_r; unfold e; lia. }
  pose proof (Z.rem_bound_pos A B ltac:(unfold A; nia) ltac:(unfold B; nia)) as Hr.
  assert (Hd : Zdigits2 (cond_Zopp sx (Z.rem A B)) <= 53 - e); [|lia].
  rewrite <- Zdigits2_abs.
  replace (Z.abs (cond_Zopp sx (Z.rem A B))) with (Z.rem A B)
    by (destruct sx; cbn [cond_Zopp]; lia).
  apply Zdigits2_le; [unfold e; lia|]. split; [lia|].
  replace (53 - e) with (53 + - e) by lia.
  rewrite Z.pow_add_r by (unfold e; lia).
  assert (B <= Zpos my * 2 ^ (- e))
    by (apply Z.mul_le_mono_nonneg_l; lia).
  assert (Zpos my * 2 ^ (- e) < 2 ^ 53 * 2 ^ (- e))
    by (apply Z.mul_lt_mono_pos_r; lia).
  lia.
Qed.

Lemma div2_bounds a : 2 * Z.div2 a <= a <= 2 * Z.div2 a + 1.
Proof.
  pose proof (Z.div2_odd a) as H. destruct (Z.odd a); cbn [Z.b2z] in H; lia.
Qed.

Lemma sqrt_finite x :
  safe_operand x -> JS.lt x zero = false -> is_finite (JS.Math_sqrt x) = true.
Proof.
  intros [sx|sx mx ex Hmx Hex Hdx] Hneg; [reflexivity|].
  destruct sx; [discriminate Hneg|].
  unfold JS.Math_sqrt. cbn [SFsqrt]. unfold SFsqrt_core_binary.
  pose proof (double_exponent_bounds _ _ _ Hdx) as [Hlow _].
  destruct (Zdigits2_spec (Zpos mx)) as [D1 [D2 D3]]; [lia|].
  assert (D4 : Zdigits2 (Zpos mx) <= 53) by (apply Zdigits2_le; lia).
  set (d := Zdigits2 (Zpos mx)) in *.
  pose proof (div2_bounds (d + ex + 1)) as H1. pose proof (div2_bounds ex) as H2.
  set (D := Z.div2 (d + ex + 1)) in *.
  set (e' := Z.min (fexp JS.prec JS.emax D) (Z.div2 ex)).
  assert (He' : e' <= fexp JS.prec JS.emax D /\ e' <= Z.div2 ex /\ e' <= D).
  { unfold e', fexp, emin, JS.prec, JS.emax. lia. }
  set (s := ex - 2 * e').
  assert (Hs : 0 <= s) by (unfold s; lia).
  set (m' := match s with Zpos _ => Z.shiftl (Zpos mx) s | 0 => Zpos mx | Zneg _ => 0 end).
  assert (Hm' : m' = Zpos mx * 2 ^ s).
  { unfold m'. destruct s as [|p|p] eqn:Es; [change (2 ^ 0) with 1; lia | | lia].
    apply Z.shiftl_mul_pow2. lia. }
  assert (HS : 0 < 2 ^ s) by (apply Z.pow_pos_nonneg; lia).
  pose proof (Z.sqrtrem_sqrt m') as Hq.
  destruct (Z.sqrtrem m') as [q r]. cbn [fst] in Hq. subst q.
  destruct (Z.sqrt_spec m' ltac:(nia)) as [S1 S2].
  pose proof (Z.sqrt_nonneg m') as S0.
  set (q := Z.sqrt m') in *.
  set (K := D - e').
  assert (HK : 0 <= K) by (unfold K; lia).
  (* [q] has exactly [K] binary digits *)
  assert (Hup : Zdigits2 q <= K).
  { apply Zdigits2_le; [assumption|]. split; [assumption|].
    assert (m' < 2 ^ K * 2 ^ K).
    { rewrite <- Z.pow_add_r by lia. rewrite Hm'.
      assert (2 ^ d * 2 ^ s <= 2 ^ (K + K)).
      { rewrite <- Z.pow_add_r by lia. apply Z.pow_le_mono_r; unfold K, s; lia. }
      nia. }
    assert (0 < 2 ^ K) by (apply Z.pow_pos_nonneg; lia).
    nia. }
  assert (Hdown : K <= Zdigits2 q).
  { destruct (Z.eq_dec K 0) as [->|]; [apply Zdigits2_nonneg|].
    pose proof (Zdigits2_ge q (K - 1) ltac:(lia)) as H.
    assert (0 < 2 ^ (K - 1)) by (apply Z.pow_pos_nonneg; lia).
    assert (2 ^ (K - 1) * 2 ^ (K - 1) <= m').
    { rewrite <- Z.pow_add_r by lia. rewrite Hm'.
      assert (2 ^ (K - 1 + (K - 1)) <= 2 ^ (d - 1) * 2 ^ s).
      { rewrite <- Z.pow_add_r by lia. apply Z.pow_le_mono_r; unfold K, s; lia. }
      nia. }
    assert (2 ^ (K - 1) <= q).
    { apply Z.sqrt_le_square; [nia | lia | assumption]. }
    specialize (H ltac:(assumption)). lia. }
  apply binary_round_aux_finite; [assumption| |unfold K in *; lia].
  replace (Zdigits2 q + e') with D by (unfold K in *; lia). lia.
Qed.

(** Every route but [/exp] answers 400 with a message or 200 with a finite
    Number: operands within the range never overflow a sum, a difference or
    a product, the divisor of a remainder is never a zero there, and no
    square root is taken of a negative operand.  ([/exp] does answer 200
    with NaN and with infinities, as shown above.) *)
Theorem results_are_finite req st :
  finite_result (fst (get_add req st)) /\
  finite_result (fst (get_sub req st)) /\
  finite_result (fst (get_mul req st)) /\
  finite_result (fst (get_div req st)) /\
  finite_result (fst (get_sqrt req st)) /\
  finite_result (fst (get_mod req st)).
Proof.
  rewrite get_add_response, get_sub_response, get_mul_response, get_div_response,
    get_sqrt_response, get_mod_response.
  cbv zeta.
  set (num1 := operand "num1" req). set (num2 := operand "num2" req).
  assert (Hsafe : not_a_number num1 num2 = false ->
                  out_of_range num1 || out_of_range num2 = false ->
                  safe_operand num1 /\ safe_operand num2).
  { intros Hn Hr. apply orb_false_iff in Hr as [Hr1 Hr2].
    split; [now apply (operand_safe "num1" req num2)|].
    apply (operand_safe "num2" req num1); [|assumption].
    unfold not_a_number in *. now rewrite orb_comm. }
  repeat split.
  - by_rules "+" num1 num2 st; try absurd_rule2; try reflexivity.
    destruct (Hsafe eq_refl eq_refl). now apply add_finite.
  - by_rules "-" num1 num2 st; try absurd_rule2; try reflexivity.
    destruct (Hsafe eq_refl eq_refl). now apply sub_finite.
  - by_rules "*" num1 num2 st; try absurd_rule2; try reflexivity.
    destruct (Hsafe eq_refl eq_refl). now apply mul_finite.
  - rewrite handleErrors_divide. destruct (not_a_number num1 num2); reflexivity.
  - by_rules "sqrt" num1 zero st; try absurd_rule2; try reflexivity.
    cbv zeta. cbn [String.eqb Ascii.eqb Bool.eqb].
    destruct (JS.lt num1 zero) eqn:Hneg; [reflexivity|].
    apply sqrt_finite; [|assumption].
    apply (operand_safe "num1" req zero); [assumption|].
    now apply orb_false_iff in Hrange as [Hr _].
  - by_rules "%" num1 num2 st; try reflexivity.
    destruct (Hsafe eq_refl eq_refl).
    cbn [String.eqb Ascii.eqb Bool.eqb orb andb] in Hdiv.
    now apply rem_finite.
Qed.

(* ================================================================== *)
(** * Integers                                                          *)
(* ================================================================== *)

(** ** Rounding sees the value, not the way it is written *)

Lemma iter_add {A} (f : A -> A) n m x :
  Nat.iter (n + m) f x = Nat.iter m f (Nat.iter n f x).
Proof.
  revert x. induction n as [|n IH]; intros x; [reflexivity|].
  change (Nat.iter (S n + m) f x) with (f (Nat.iter (n + m) f x)).
  change (Nat.iter (S n) f x) with (f (Nat.iter n f x)).
  rewrite IH. clear.
  generalize (Nat.iter n f x) as y. intros y.
  induction m as [|m IH]; [reflexivity|].
  change (Nat.iter (S m) f y) with (f (Nat.iter m f y)).
  change (Nat.iter (S m) f (f y)) with (f (Nat.iter m f (f y))).
  now rewrite IH.
Qed.

Lemma iter_pos_nat {A} (f : A -> A) p : forall x,
  iter_pos f p x = Nat.iter (Pos.to_nat p) f x.
Proof.
  induction p as [p IH|p IH|]; intros x; cbn [iter_pos].
  - rewrite !IH, Pos2Nat.inj_xI.
    replace (S (2 * Pos.to_nat p)) with (1 + (Pos.to_nat p + Pos.to_nat p))%nat by lia.
    rewrite !iter_add. reflexivity.
  - rewrite !IH, Pos2Nat.inj_xO.
    replace (2 * Pos.to_nat p)%nat with (Pos.to_nat p + Pos.to_nat p)%nat by lia.
    rewrite iter_add. reflexivity.
  - reflexivity.
Qed.

Lemma shr_nat mrs e n :
  shr mrs e n = (Nat.iter (Z.to_nat n) shr_1 mrs, e + Z.max n 0).
Proof.
  unfold shr. destruct n as [|p|p].
  - cbn. f_equal; lia.
  - rewrite iter_pos_nat. cbn [Z.to_nat]. f_equal; lia.
  - cbn. f_equal; lia.
Qed.

(** Shifting out the zero bits of an exact record leaves an exact record. *)
Lemma iter_shr_1_exact j : forall z,
  0 <= z ->
  Nat.iter j shr_1 {| shr_m := z * 2 ^ Z.of_nat j; shr_r := false; shr_s := false |}
  = {| shr_m := z; shr_r := false; shr_s := false |}.
Proof.
  induction j as [|j IH]; intros z Hz.
  - change (Z.of_nat 0) with 0. change (2 ^ 0) with 1. now rewrite Z.mul_1_r.
  - replace (S j) with (1 + j)%nat by reflexivity. rewrite iter_add.
    replace (Z.of_nat (1 + j)) with (Z.succ (Z.of_nat j)) by lia.
    rewrite Z.pow_succ_r by lia.
    replace (z * (2 * 2 ^ Z.of_nat j)) with (2 * (z * 2 ^ Z.of_nat j)) by ring.
    assert (Hp : 0 <= z * 2 ^ Z.of_nat j).
    { apply Z.mul_nonneg_nonneg; [assumption|]. apply Z.pow_nonneg. lia. }
    replace (Nat.iter 1 shr_1
               {| shr_m := 2 * (z * 2 ^ Z.of_nat j); shr_r := false; shr_s := false |})
      with {| shr_m := z * 2 ^ Z.of_nat j; shr_r := false; shr_s := false |}.
    + now apply IH.
    + destruct (z * 2 ^ Z.of_nat j) as [|p|p]; [reflexivity | reflexivity | lia].
Qed.

(** The record and exponent [binary_round] works on once the mantissa is
    aligned: they depend on [m * 2^e] only. *)
Lemma aligned_record m e J :
  let f := fexp JS.prec JS.emax (Zpos (digits2_pos m) + e) in
  0 <= J -> e - f <= J ->
  (let (mz, ez) := shl_align m e f in shr_fexp JS.prec JS.emax (Zpos mz) ez loc_Exact) =
  (Nat.iter (Z.to_nat (f - e + J)) shr_1
     {| shr_m := Zpos m * 2 ^ J; shr_r := false; shr_s := false |}, f).
Proof.
  intros f HJ HeJ.
  pose proof (shl_align_value m e (Z.min e f) ltac:(lia)) as Hv.
  assert (Hsh : shl_align m e f = (fst (shl_align m e (Z.min e f)), Z.min e f)).
  { unfold shl_align.
    destruct (f - e) as [|d|d] eqn:Hd.
    - replace (Z.min e f) with e by lia. rewrite Z.sub_diag. reflexivity.
    - replace (Z.min e f) with e by lia. rewrite Z.sub_diag. reflexivity.
    - replace (Z.min e f) with f by lia. rewrite Hd. reflexivity. }
  rewrite Hsh. set (mz := fst (shl_align m e (Z.min e f))) in *.
  unfold shr_fexp. cbn [Zdigits2 shr_record_of_loc].
  assert (Hdig : Zpos (digits2_pos mz) = Zpos (digits2_pos m) + (e - Z.min e f)).
  { change (Zpos (digits2_pos mz)) with (Zdigits2 (Zpos mz)).
    change (Zpos (digits2_pos m)) with (Zdigits2 (Zpos m)).
    destruct (Zdigits2_spec (Zpos m)) as [D1 [D2 D3]]; [lia|].
    assert (0 < 2 ^ (e - Z.min e f)) by (apply Z.pow_pos_nonneg; lia).
    apply Zdigits2_unique; [lia|]. rewrite Hv. split.
    - replace (Zdigits2 (Zpos m) + (e - Z.min e f) - 1)
        with (Zdigits2 (Zpos m) - 1 + (e - Z.min e f)) by lia.
      rewrite Z.pow_add_r by lia. nia.
    - rewrite Z.pow_add_r by lia. nia. }
  replace (Zpos (digits2_pos mz) + Z.min e f) with (Zpos (digits2_pos m) + e) by lia.
  fold f. rewrite shr_nat. f_equal; [|lia].
  rewrite Hv.
  destruct (Z.le_ge_cases f e) as [Hfe|Hfe].
  - (* the mantissa was shifted left to the exponent [f] *)
    replace (Z.min e f) with f by lia. rewrite Z.sub_diag. cbn [Z.to_nat Nat.iter].
    replace (Zpos m * 2 ^ J) with (Zpos m * 2 ^ (e - f) * 2 ^ Z.of_nat (Z.to_nat (f - e + J))).
    + rewrite iter_shr_1_exact; [reflexivity|].
      assert (0 < 2 ^ (e - f)) by (apply Z.pow_pos_nonneg; lia). nia.
    + rewrite Z2Nat.id by lia. rewrite <- Z.mul_assoc, <- Z.pow_add_r by lia.
      do 2 f_equal. lia.
  - (* the mantissa is shifted right from the exponent [e] *)
    replace (Z.min e f) with e by lia. rewrite Z.sub_diag, Z.mul_1_r.
    replace (Z.to_nat (f - e + J)) with (Z.to_nat J + Z.to_nat (f - e))%nat by lia.
    rewrite iter_add.
    replace (2 ^ J) with (2 ^ Z.of_nat (Z.to_nat J)) by (rewrite Z2Nat.id by lia; reflexivity).
    rewrite iter_shr_1_exact by lia. reflexivity.
Qed.

Lemma binary_round_shift sx m m' e k :
  0 <= k -> Zpos m' = Zpos m * 2 ^ k ->
  binary_round JS.prec JS.emax sx m' (e - k) = binary_round JS.prec JS.emax sx m e.
Proof.
  intros Hk Hm'.
  assert (Hd : Zpos (digits2_pos m') = Zpos (digits2_pos m) + k).
  { change (Zpos (digits2_pos m')) with (Zdigits2 (Zpos m')).
    change (Zpos (digits2_pos m)) with (Zdigits2 (Zpos m)).
    destruct (Zdigits2_spec (Zpos m)) as [D1 [D2 D3]]; [lia|].
    assert (0 < 2 ^ k) by (apply Z.pow_pos_nonneg; lia).
    apply Zdigits2_unique; [lia|]. rewrite Hm'. split.
    - replace (Zdigits2 (Zpos m) + k - 1) with (Zdigits2 (Zpos m) - 1 + k) by lia.
      rewrite Z.pow_add_r by lia. nia.
    - rewrite Z.pow_add_r by lia. nia. }
  set (f := fexp JS.prec JS.emax (Zpos (digits2_pos m) + e)).
  set (J := Z.max 0 (e - f)).
  pose proof (aligned_record m e (k + J)) as HR.
  pose proof (aligned_record m' (e - k) J) as HL.
  cbv zeta in HR, HL.
  replace (Zpos (digits2_pos m') + (e - k)) with (Zpos (digits2_pos m) + e) in HL by lia.
  fold f in HR, HL.
  specialize (HR ltac:(lia) ltac:(lia)). specialize (HL ltac:(lia) ltac:(lia)).
  unfold binary_round.
  replace (Zpos (digits2_pos m') + (e - k)) with (Zpos (digits2_pos m) + e) by lia.
  fold f.
  destruct (shl_align m' (e - k) f) as [mzL ezL], (shl_align m e f) as [mzR ezR].
  unfold binary_round_aux. rewrite HL, HR.
  replace (f - (e - k) + J) with (f - e + (k + J)) by lia.
  replace (Zpos m' * 2 ^ J) with (Zpos m * 2 ^ (k + J)); [reflexivity|].
  rewrite Hm', Z.pow_add_r by lia. ring.
Qed.

(** ** Integers below [2^53] as doubles *)

Lemma binary_round_canonical sx m e :
  fexp JS.prec JS.emax (Zpos (digits2_pos m) + e) = e -> e <= JS.emax - JS.prec ->
  binary_round JS.prec JS.emax sx m e = S754_finite sx m e.
Proof.
  intros Hf He. unfold binary_round, shl_align. rewrite Hf, Z.sub_diag.
  unfold binary_round_aux, shr_fexp. cbn [Zdigits2]. rewrite Hf, Z.sub_diag.
  cbn [shr shr_record_of_loc shr_m loc_of_shr_record round_nearest_even Zdigits2].
  rewrite Hf, Z.sub_diag. cbn [shr shr_record_of_loc shr_m].
  apply Z.leb_le in He. rewrite He. reflexivity.
Qed.

Lemma binary_normalize_shift z K sz :
  0 <= K ->
  binary_normalize JS.prec JS.emax (z * 2 ^ K) (0 - K) sz =
  binary_normalize JS.prec JS.emax z 0 sz.
Proof.
  intros HK. assert (HP : 0 < 2 ^ K) by (apply Z.pow_pos_nonneg; lia).
  destruct z as [|p|p].
  - reflexivity.
  - destruct (Zpos p * 2 ^ K) as [|p'|p'] eqn:E; try nia.
    cbn [binary_normalize]. now apply binary_round_shift.
  - destruct (Zneg p * 2 ^ K) as [|p'|p'] eqn:E; try nia.
    cbn [binary_normalize]. apply binary_round_shift; [assumption|]. lia.
Qed.

(** The double of a non-zero integer below [2^53] in magnitude: its sign,
    its magnitude shifted to 53 bits, and the exponent that undoes the
    shift. *)
Lemma of_Z_shape z :
  z <> 0 -> Z.abs z < 2 ^ 53 ->
  exists m k, 0 <= k <= 52 /\ Zpos m = Z.abs z * 2 ^ k /\
    JS.of_Z z = S754_finite (z <? 0) m (- k) /\
    is_double (S754_finite (z <? 0) m (- k)) = true.
Proof.
  intros Hz Hb.
  destruct (Zdigits2_spec (Z.abs z)) as [D1 [D2 D3]]; [lia|].
  assert (D4 : Zdigits2 (Z.abs z) <= 53) by (apply Zdigits2_le; lia).
  set (d := Zdigits2 (Z.abs z)) in *. set (k := 53 - d).
  assert (HP : 0 < 2 ^ k) by (apply Z.pow_pos_nonneg; unfold k; lia).
  destruct (Z.abs z * 2 ^ k) as [|m|m] eqn:Em; try nia.
  exists m, k. split; [unfold k; lia|]. split; [now symmetry|].
  assert (Hdm : Zpos (digits2_pos m) = 53).
  { change (Zpos (digits2_pos m)) with (Zdigits2 (Zpos m)).
    apply Zdigits2_unique; [lia|]. rewrite <- Em. split.
    - replace (53 - 1) with (d - 1 + k) by (unfold k; lia).
      rewrite Z.pow_add_r by (unfold k; lia). nia.
    - replace (2 ^ 53) with (2 ^ d * 2 ^ k); [nia|].
      rewrite <- Z.pow_add_r by (unfold k; lia). f_equal. unfold k. lia. }
  assert (Hcan : fexp JS.prec JS.emax (Zpos (digits2_pos m) + - k) = - k).
  { rewrite Hdm. unfold fexp, emin, JS.prec, JS.emax, k. lia. }
  split.
  - unfold JS.of_Z. rewrite <- (binary_normalize_shift z k) by (unfold k; lia).
    destruct z as [|p|p]; [contradiction| |]; cbn [Z.abs Z.ltb Z.compare] in *.
    + rewrite Em. cbn [binary_normalize]. replace (0 - k) with (- k) by lia.
      apply binary_round_canonical; [assumption | unfold JS.emax, JS.prec, k; lia].
    + replace (Zneg p * 2 ^ k) with (Zneg m) by lia.
      cbn [binary_normalize]. replace (0 - k) with (- k) by lia.
      apply binary_round_canonical; [assumption | unfold JS.emax, JS.prec, k; lia].
  - unfold is_double, valid_binary, bounded, canonical_mantissa.
    apply andb_true_iff. split; [now apply Z.eqb_eq|].
    apply Z.leb_le. unfold JS.emax, JS.prec, k. lia.
Qed.

(** Round trip: an integer below [2^53] in magnitude is read back from its
    double. *)
Lemma to_Z_of_Z z :
  Z.abs z < 2 ^ 53 -> JS.to_Z (JS.of_Z z) = z /\ JS.is_integral (JS.of_Z z) = true.
Proof.
  intros Hb. destruct (Z.eq_dec z 0) as [->|Hz]; [split; reflexivity|].
  destruct (of_Z_shape z Hz Hb) as (m & k & Hk & Hm & -> & _).
  assert (HP : 0 < 2 ^ k) by (apply Z.pow_pos_nonneg; lia).
  unfold JS.to_Z, JS.is_integral. rewrite Z.opp_involutive, Hm.
  destruct (Z.leb_spec 0 (- k)).
  - replace k with 0 by lia. change (2 ^ 0) with 1. rewrite Z.mul_1_r.
    split; [|reflexivity]. destruct (Z.ltb_spec z 0); cbn [cond_Zopp]; lia.
  - rewrite Z.div_mul, Z.mod_mul by lia.
    split; [|reflexivity]. destruct (Z.ltb_spec z 0); cbn [cond_Zopp]; lia.
Qed.

(** Within [2^53 - 1] in magnitude, the double of an integer is within the
    range of rule 3. *)
Lemma of_Z_in_range z :
  Z.abs z <= 2 ^ 53 - 1 -> JS.isNaN (JS.of_Z z) = false /\ out_of_range (JS.of_Z z) = false.
Proof.
  intros Hb. destruct (Z.eq_dec z 0) as [->|Hz]; [split; reflexivity|].
  destruct (of_Z_shape z Hz ltac:(lia)) as (m & k & Hk & Hm & -> & _).
  split; [reflexivity|].
  rewrite out_of_range_magnitude.
  unfold JS.gt, SFltb, JS.MAX_SAFE_INTEGER. cbn [SFabs SFcompare].
  destruct (Z.compare_spec 0 (- k)) as [E|E|E]; [|lia|reflexivity].
  assert (k = 0) by lia. subst k. change (2 ^ 0) with 1 in Hm.
  rewrite Pos.compare_cont_spec. cbn [Pos.switch_Eq].
  change (2 ^ 53 - 1) with (Zpos 9007199254740991) in Hb.
  destruct (Pos.compare_spec 9007199254740991 m) as [E'|E'|E']; try reflexivity.
  lia.
Qed.

(** ** Sums, differences and products of integers *)

Lemma shape_signed z m k :
  z <> 0 -> Zpos m = Z.abs z * 2 ^ k -> cond_Zopp (z <? 0) (Zpos m) = z * 2 ^ k.
Proof.
  intros Hz Hm. rewrite Hm. destruct (Z.ltb_spec z 0); cbn [cond_Zopp]; nia.
Qed.

Lemma aligned_integer m k ez z :
  z <> 0 -> 0 <= k -> ez <= - k -> Zpos m = Z.abs z * 2 ^ k ->
  cond_Zopp (z <? 0) (Zpos (fst (shl_align m (- k) ez))) = z * 2 ^ (- ez).
Proof.
  intros Hz Hk He Hm.
  rewrite shl_align_value by assumption.
  assert (E : 2 ^ (- ez) = 2 ^ k * 2 ^ (- k - ez)).
  { rewrite <- Z.pow_add_r by lia. f_equal. lia. }
  rewrite E, Hm. destruct (Z.ltb_spec z 0); cbn [cond_Zopp]; nia.
Qed.

Lemma binary_round_opp sx m e :
  SFopp (binary_round JS.prec JS.emax sx m e) = binary_round JS.prec JS.emax (negb sx) m e.
Proof.
  unfold binary_round, binary_round_aux.
  destruct (shl_align m e _) as [mz ez].
  destruct (shr_fexp JS.prec JS.emax (Zpos mz) ez loc_Exact) as [mrs' e'].
  destruct (shr_fexp JS.prec JS.emax _ e' loc_Exact) as [mrs'' e''].
  destruct (shr_m mrs''); [reflexivity | | reflexivity].
  destruct (e'' <=? JS.emax - JS.prec); reflexivity.
Qed.

Lemma of_Z_opp z : JS.of_Z (- z) = SFopp (JS.of_Z z) \/ z = 0.
Proof.
  destruct z as [|p|p]; [now right | left..]; unfold JS.of_Z;
    cbn [Z.opp binary_normalize]; rewrite binary_round_opp; reflexivity.
Qed.

Lemma add_of_Z a b :
  Z.abs a < 2 ^ 53 -> Z.abs b < 2 ^ 53 ->
  JS.add (JS.of_Z a) (JS.of_Z b) = JS.of_Z (a + b) /\
  JS.sub (JS.of_Z a) (JS.of_Z b) = JS.of_Z (a - b).
Proof.
  intros Ha Hb.
  destruct (Z.eq_dec a 0) as [->|Ha0], (Z.eq_dec b 0) as [->|Hb0].
  - split; reflexivity.
  - destruct (of_Z_shape b Hb0 Hb) as (mb & kb & Hkb & Hmb & Eb & _).
    rewrite Z.add_0_l, Z.sub_0_l.
    destruct (of_Z_opp b) as [-> | ?]; [|contradiction].
    rewrite Eb. split; reflexivity.
  - destruct (of_Z_shape a Ha0 Ha) as (ma & ka & Hka & Hma & Ea & _).
    rewrite Z.add_0_r, Z.sub_0_r, Ea. split; reflexivity.
  - destruct (of_Z_shape a Ha0 Ha) as (ma & ka & Hka & Hma & Ea & _).
    destruct (of_Z_shape b Hb0 Hb) as (mb & kb & Hkb & Hmb & Eb & _).
    rewrite Ea, Eb. unfold JS.add, JS.sub. cbn [SFadd SFsub].
    set (ez := Z.min (- ka) (- kb)).
    rewrite (aligned_integer ma ka ez a), (aligned_integer mb kb ez b)
      by (assumption || unfold ez; lia).
    replace (a * 2 ^ (- ez) + b * 2 ^ (- ez)) with ((a + b) * 2 ^ (- ez)) by ring.
    replace (a * 2 ^ (- ez) - b * 2 ^ (- ez)) with ((a - b) * 2 ^ (- ez)) by ring.
    replace ez with (0 - - ez) at 2 4 by lia.
    rewrite !binary_normalize_shift by (unfold ez; lia).
    split; reflexivity.
Qed.

Lemma mul_of_Z a b :
  a <> 0 -> b <> 0 -> Z.abs a < 2 ^ 53 -> Z.abs b < 2 ^ 53 ->
  JS.mul (JS.of_Z a) (JS.of_Z b) = JS.of_Z (a * b).
Proof.
  intros Ha0 Hb0 Ha Hb.
  destruct (of_Z_shape a Ha0 Ha) as (ma & ka & Hka & Hma & Ea & Da).
  destruct (of_Z_shape b Hb0 Hb) as (mb & kb & Hkb & Hmb & Eb & Db).
  rewrite Ea, Eb. unfold JS.mul. cbn [SFmul].
  assert (Fa : Zdigits2 (Zpos ma) = 53).
  { destruct (double_exponent_bounds _ _ _ Da) as [_ [E|E]]; [lia | exact E]. }
  assert (Fb : Zdigits2 (Zpos mb) = 53).
  { destruct (double_exponent_bounds _ _ _ Db) as [_ [E|E]]; [lia | exact E]. }
  destruct (Zdigits2_spec (Zpos ma)) as [_ [A1 A2]]; [lia|].
  destruct (Zdigits2_spec (Zpos mb)) as [_ [B1 B2]]; [lia|].
  rewrite Fa in A1, A2. rewrite Fb in B1, B2.
  change (2 ^ (53 - 1)) with (2 ^ 52) in A1, B1.
  assert (Hdig : 105 <= Zdigits2 (Zpos (ma * mb))).
  { pose proof (Zdigits2_ge (Zpos (ma * mb)) 104 ltac:(lia)) as H.
    rewrite Pos2Z.inj_mul in *. change (2 ^ 104) with (2 ^ 52 * 2 ^ 52) in H.
    specialize (H ltac:(nia)). lia. }
  (* the product is aligned already: [binary_round] adds nothing *)
  assert (Haux : binary_round_aux JS.prec JS.emax (xorb (a <? 0) (b <? 0))
                   (Zpos (ma * mb)) (- ka + - kb) loc_Exact =
                 binary_round JS.prec JS.emax (xorb (a <? 0) (b <? 0))
                   (ma * mb) (0 - (ka + kb))).
  { unfold binary_round, shl_align.
    replace (0 - (ka + kb)) with (- ka + - kb) by lia.
    change (Zpos (digits2_pos (ma * mb))) with (Zdigits2 (Zpos (ma * mb))).
    destruct (fexp JS.prec JS.emax (Zdigits2 (Zpos (ma * mb)) + (- ka + - kb))
              - (- ka + - kb)) eqn:E; try reflexivity.
    exfalso. revert E. unfold fexp, emin, JS.prec, JS.emax. lia. }
  rewrite Haux.
  assert (Hab : a * b <> 0) by nia.
  destruct (Z.abs (a * b)) as [|p|p] eqn:Ep; try lia.
  rewrite (binary_round_shift _ p (ma * mb) 0 (ka + kb)); [|lia|].
  - unfold JS.of_Z.
    destruct (a * b) as [|q|q] eqn:Eq; [contradiction| |]; cbn [binary_normalize];
      cbn [Z.abs] in Ep; injection Ep as ->; f_equal;
      destruct (Z.ltb_spec a 0), (Z.ltb_spec b 0); try reflexivity; nia.
  - rewrite Pos2Z.inj_mul, Hma, Hmb, <- Ep, Z.abs_mul, Z.pow_add_r by lia. ring.
Qed.

(** On integers the three routes compute the integer result: operands that
    are the doubles of integers within [2^53 - 1] in magnitude get 200 with
    the double nearest to the integer sum, difference and (for non-zero
    operands) product; read back, that double is the exact result whenever
    the result is below [2^53] in magnitude. *)
Theorem integer_arithmetic req st a b :
  Z.abs a <= 2 ^ 53 - 1 ->
  Z.abs b <= 2 ^ 53 - 1 ->
  operand "num1" req = JS.of_Z a ->
  operand "num2" req = JS.of_Z b ->
  fst (get_add req st) = {| status := 200; body := JResult (JS.of_Z (a + b)) |} /\
  fst (get_sub req st) = {| status := 200; body := JResult (JS.of_Z (a - b)) |} /\
  (a <> 0 -> b <> 0 ->
   fst (get_mul req st) = {| status := 200; body := JResult (JS.of_Z (a * b)) |}) /\
  (forall r, Z.abs r < 2 ^ 53 ->
     JS.to_Z (JS.of_Z r) = r /\ JS.is_integral (JS.of_Z r) = true).
Proof.
  intros Ha Hb E1 E2.
  destruct (of_Z_in_range a Ha) as [Na Ra]. destruct (of_Z_in_range b Hb) as [Nb Rb].
  destruct (add_of_Z a b ltac:(lia) ltac:(lia)) as [Hadd Hsub].
  rewrite get_add_response, get_sub_response, get_mul_response. cbv zeta.
  rewrite E1, E2.
  rewrite !handleErrors_past_rule3
    by (reflexivity || (unfold not_a_number; now rewrite Na, Nb) || now rewrite Ra, Rb).
  cbn [String.eqb Ascii.eqb Bool.eqb fst loose_eq Z.eqb].
  rewrite Hadd, Hsub.
  split; [reflexivity|]. split; [reflexivity|]. split.
  - intros Ha0 Hb0. rewrite mul_of_Z by lia. reflexivity.
  - apply to_Z_of_Z.
Qed.

Lemma integer_arithmetic_witness :
  let req := {| query := [("num1", QString "123"); ("num2", QString "-456")] |} in
  fst (get_add req listening) =
    {| status := 200; body := JResult (JS.parseFloat_string "-333") |} /\
  fst (get_sub req listening) =
    {| status := 200; body := JResult (JS.parseFloat_string "579") |} /\
  fst (get_mul req listening) =
    {| status := 200; body := JResult (JS.parseFloat_string "-56088") |}.
Proof.
  cbv zeta.
  destruct (integer_arithmetic
              {| query := [("num1", QString "123"); ("num2", QString "-456")] |}
              listening 123 (-456)) as (H1 & H2 & H3 & _);
    [vm_compute; discriminate | vm_compute; discriminate | reflexivity | reflexivity |].
  rewrite H1, H2, H3 by discriminate. repeat split.
Defined.

(** ** Integer numerals *)

Lemma digit_char_digit d :
  decimal_digit d ->
  JS.is_digit (JS.digit_char d) = true /\ JS.digit_value (JS.digit_char d) = d.
Proof.
  unfold decimal_digit. intros H.
  assert (E : d = 0 \/ d = 1 \/ d = 2 \/ d = 3 \/ d = 4 \/ d = 5 \/ d = 6 \/ d = 7 \/
              d = 8 \/ d = 9) by lia.
  repeat destruct E as [->|E]; try subst d; split; reflexivity.
Qed.

Lemma take_digits_digits ds :
  Forall decimal_digit ds -> JS.take_digits (JS.string_of_digits ds) = (ds, EmptyString).
Proof.
  induction 1 as [|d ds Hd _ IH]; [reflexivity|].
  cbn [JS.string_of_digits JS.take_digits].
  destruct (digit_char_digit d Hd) as [-> ->]. now rewrite IH.
Qed.

Lemma fold_digits_nonneg ds : forall acc,
  Forall decimal_digit ds -> 0 <= acc ->
  0 <= fold_left (fun acc d => 10 * acc + d) ds acc.
Proof.
  induction ds as [|d ds IH]; intros acc H Hacc; [assumption|].
  inversion H as [|? ? Hd Hds]; subst. cbn [fold_left].
  apply IH; [assumption|]. unfold decimal_digit in Hd. lia.
Qed.

Lemma digits_value_nonneg ds : Forall decimal_digit ds -> 0 <= JS.digits_value ds.
Proof. intros H. apply fold_digits_nonneg; [assumption | lia]. Qed.

(** A parameter written as decimal digits, with or without a minus sign in
    front, is read as the double nearest to that integer: the operand a
    handler obtains from the text [123] is the double of 123. *)
Theorem numerals_are_read_as_integers ds :
  ds <> [] -> Forall decimal_digit ds ->
  parseFloat (QString (JS.string_of_digits ds)) = JS.of_Z (JS.digits_value ds) /\
  (JS.digits_value ds <> 0 ->
   parseFloat (QString (String "-" (JS.string_of_digits ds))) =
   JS.of_Z (- JS.digits_value ds)).
Proof.
  intros Hne Hds.
  pose proof (digits_value_nonneg ds Hds) as Hv.
  pose proof (take_digits_digits ds Hds) as Htake.
  destruct ds as [|d ds']; [contradiction|].
  assert (Hd : decimal_digit d) by (now inversion Hds).
  assert (Hu : JS.parse_unsigned (JS.string_of_digits (d :: ds')) =
               Some (JS.DFinite (JS.digits_value (d :: ds')) 0, EmptyString)).
  { unfold JS.parse_unsigned. rewrite Htake.
    replace (String.prefix "Infinity" (JS.string_of_digits (d :: ds'))) with false.
    - cbn [JS.parse_exponent]. reflexivity.
    - unfold decimal_digit in Hd.
      assert (E : d = 0 \/ d = 1 \/ d = 2 \/ d = 3 \/ d = 4 \/ d = 5 \/ d = 6 \/ d = 7 \/
                  d = 8 \/ d = 9) by lia.
      repeat destruct E as [->|E]; try subst d; reflexivity. }
  assert (Hplain : JS.parse_decimal (JS.string_of_digits (d :: ds')) =
                   Some (JS.decimal_value false (JS.DFinite (JS.digits_value (d :: ds')) 0),
                         EmptyString)).
  { unfold JS.parse_decimal.
    replace (match JS.string_of_digits (d :: ds') with
             | String "+" t => (false, t)
             | String "-" t => (true, t)
             | _ => (false, JS.string_of_digits (d :: ds'))
             end) with (false, JS.string_of_digits (d :: ds')).
    - now rewrite Hu.
    - unfold decimal_digit in Hd.
      assert (E : d = 0 \/ d = 1 \/ d = 2 \/ d = 3 \/ d = 4 \/ d = 5 \/ d = 6 \/ d = 7 \/
                  d = 8 \/ d = 9) by lia.
      repeat destruct E as [->|E]; try subst d; reflexivity. }
  assert (Htrim : JS.trim_start (JS.string_of_digits (d :: ds')) =
                  JS.string_of_digits (d :: ds')).
  { unfold decimal_digit in Hd.
    assert (E : d = 0 \/ d = 1 \/ d = 2 \/ d = 3 \/ d = 4 \/ d = 5 \/ d = 6 \/ d = 7 \/
                d = 8 \/ d = 9) by lia.
    repeat destruct E as [->|E]; try subst d; reflexivity. }
  unfold parseFloat, JS.parseFloat_string. cbn [ToString].
  split.
  - rewrite Htrim, Hplain.
    destruct (JS.digits_value (d :: ds')) as [|p|p]; [reflexivity| |lia].
    cbn [JS.decimal_value]. unfold JS.round_decimal, JS.of_Z.
    cbn [Z.leb Z.compare binary_normalize]. change (10 ^ 0) with 1.
    rewrite Z.mul_1_r. reflexivity.
  - intros Hnz.
    change (JS.trim_start (String "-" (JS.string_of_digits (d :: ds'))))
      with (String "-" (JS.string_of_digits (d :: ds'))).
    change (JS.parse_decimal (String "-" (JS.string_of_digits (d :: ds'))))
      with (match JS.parse_unsigned (JS.string_of_digits (d :: ds')) with
            | Some (dv, rest) => Some (JS.decimal_value true dv, rest)
            | None => None
            end).
    rewrite Hu.
    destruct (JS.digits_value (d :: ds')) as [|p|p]; [contradiction| |lia].
    cbn [JS.decimal_value]. unfold JS.round_decimal, JS.of_Z.
    cbn [Z.leb Z.compare binary_normalize Z.opp]. change (10 ^ 0) with 1.
    rewrite Z.mul_1_r. reflexivity.
Qed.

Lemma numerals_are_read_as_integers_witness :
  parseFloat (QString "9007199254740993") = JS.of_Z 9007199254740993 /\
  parseFloat (QString "-42") = JS.of_Z (-42).
Proof.
  destruct (numerals_are_read_as_integers [9;0;0;7;1;9;9;2;5;4;7;4;0;9;9;3]) as [H1 _];
    [discriminate | repeat constructor; unfold decimal_digit; lia |].
  destruct (numerals_are_read_as_integers [4;2]) as [_ H2];
    [discriminate | repeat constructor; unfold decimal_digit; lia |].
  split; [exact H1 | apply H2; discriminate].
Defined.

(** ** Remainders of integers and roots of squares *)

Lemma binary_normalize_nonzero z e sz :
  z <> 0 ->
  binary_normalize JS.prec JS.emax z e sz = binary_normalize JS.prec JS.emax z e false.
Proof. destruct z; [contradiction | reflexivity..]. Qed.

Lemma rem_signed a b :
  b <> 0 -> cond_Zopp (a <? 0) (Z.rem (Z.abs a) (Z.abs b)) = Z.rem a b.
Proof.
  intros Hb.
  destruct (Z.ltb_spec a 0), (Z.abs_spec a) as [[? Ea]|[? Ea]],
    (Z.abs_spec b) as [[? Eb]|[? Eb]]; try lia; rewrite Ea, Eb; cbn [cond_Zopp];
    rewrite ?Z.rem_opp_r by lia; rewrite ?Z.rem_opp_l by lia; lia.
Qed.

Lemma rem_of_Z a b :
  b <> 0 -> Z.abs a < 2 ^ 53 -> Z.abs b < 2 ^ 53 ->
  JS.rem (JS.of_Z a) (JS.of_Z b) =
  if (Z.rem a b =? 0) && (a <? 0) then JS.neg_zero else JS.of_Z (Z.rem a b).
Proof.
  intros Hb0 Ha Hb.
  destruct (of_Z_shape b Hb0 Hb) as (mb & kb & Hkb & Hmb & Eb & _).
  destruct (Z.eq_dec a 0) as [->|Ha0].
  { rewrite Eb, Z.rem_0_l by assumption. reflexivity. }
  destruct (of_Z_shape a Ha0 Ha) as (ma & ka & Hka & Hma & Ea & _).
  rewrite Ea, Eb. cbn [JS.rem].
  set (e := Z.min (- ka) (- kb)).
  rewrite !Z.shiftl_mul_pow2 by (unfold e; lia).
  assert (HP : 0 < 2 ^ (- e)) by (apply Z.pow_pos_nonneg; unfold e; lia).
  assert (EA : Zpos ma * 2 ^ (- ka - e) = Z.abs a * 2 ^ (- e)).
  { rewrite Hma, <- Z.mul_assoc, <- Z.pow_add_r by (unfold e; lia). do 2 f_equal. lia. }
  assert (EB : Zpos mb * 2 ^ (- kb - e) = Z.abs b * 2 ^ (- e)).
  { rewrite Hmb, <- Z.mul_assoc, <- Z.pow_add_r by (unfold e; lia). do 2 f_equal. lia. }
  rewrite EA, EB, Z.mul_rem_distr_r by lia.
  replace (cond_Zopp (a <? 0) (Z.rem (Z.abs a) (Z.abs b) * 2 ^ (- e)))
    with (Z.rem a b * 2 ^ (- e))
    by (rewrite <- (rem_signed a b Hb0); destruct (a <? 0); cbn [cond_Zopp]; ring).
  replace e with (0 - - e) at 2 by lia.
  rewrite binary_normalize_shift by (unfold e; lia).
  destruct (Z.eqb_spec (Z.rem a b) 0) as [E|E].
  - rewrite E. cbn [binary_normalize andb]. destruct (a <? 0); reflexivity.
  - cbn [andb]. now rewrite binary_normalize_nonzero.
Qed.

Lemma sqrt_of_square n :
  0 < n -> n * n < 2 ^ 53 -> JS.Math_sqrt (JS.of_Z (n * n)) = JS.of_Z n.
Proof.
  intros Hn Hb.
  destruct (of_Z_shape (n * n) ltac:(nia) ltac:(nia)) as (m & k & Hk & Hm & E & Dm).
  rewrite E. replace (n * n <? 0) with false by (symmetry; apply Z.ltb_ge; nia).
  rewrite Z.abs_eq in Hm by nia.
  unfold JS.Math_sqrt. cbn [SFsqrt]. unfold SFsqrt_core_binary.
  assert (Fd : Zdigits2 (Zpos m) = 53).
  { destruct (double_exponent_bounds _ _ _ Dm) as [_ [F|F]]; [lia | exact F]. }
  rewrite Fd.
  (* the binary digits of [n] *)
  destruct (Zdigits2_spec n Hn) as [N1 [N2 N3]].
  set (dn := Zdigits2 n) in *.
  assert (Hdn : Z.div2 (53 + - k + 1) = dn).
  { destruct (Zdigits2_spec (Zpos m)) as [_ [M2 M3]]; [lia|].
    rewrite Fd in M2, M3. rewrite Hm in M2, M3.
    assert (HPk : 0 < 2 ^ k) by (apply Z.pow_pos_nonneg; lia).
    assert (L : 2 ^ (dn - 1) * 2 ^ (dn - 1) <= n * n) by nia.
    assert (U : n * n < 2 ^ dn * 2 ^ dn) by nia.
    rewrite <- Z.pow_add_r in L, U by lia.
    assert (H1 : dn - 1 + (dn - 1) + k < 53).
    { destruct (Z.lt_ge_cases (dn - 1 + (dn - 1) + k) 53); [assumption|].
      assert (X : 2 ^ 53 <= 2 ^ (dn - 1 + (dn - 1) + k)) by (apply Z.pow_le_mono_r; lia).
      rewrite (Z.pow_add_r 2 (dn - 1 + (dn - 1)) k) in X by lia.
      assert (2 ^ (dn - 1 + (dn - 1)) * 2 ^ k <= n * n * 2 ^ k)
        by (apply Z.mul_le_mono_nonneg_r; lia).
      lia. }
    assert (H2 : 53 - 1 < dn + dn + k).
    { destruct (Z.lt_ge_cases (53 - 1) (dn + dn + k)); [assumption|].
      assert (X : 2 ^ (dn + dn + k) <= 2 ^ (53 - 1)) by (apply Z.pow_le_mono_r; lia).
      rewrite (Z.pow_add_r 2 (dn + dn) k) in X by lia.
      assert (n * n * 2 ^ k < 2 ^ (dn + dn) * 2 ^ k)
        by (apply Z.mul_lt_mono_pos_r; lia).
      lia. }
    pose proof (div2_bounds (53 + - k + 1)). lia. }
  rewrite Hdn.
  pose proof (div2_bounds (- k)) as Hk2.
  set (e' := Z.min (fexp JS.prec JS.emax dn) (Z.div2 (- k))).
  assert (He' : e' <= 0 /\ e' <= fexp JS.prec JS.emax dn) by (unfold e'; lia).
  set (s := - k - 2 * e').
  assert (Hs : 0 <= s).
  { unfold s, e'. lia. }
  assert (Hm' : match s with
                | Zpos _ => Z.shiftl (Zpos m) s
                | 0 => Zpos m
                | Zneg _ => 0
                end = (n * 2 ^ (- e')) * (n * 2 ^ (- e'))).
  { transitivity (Zpos m * 2 ^ s).
    - destruct s as [|p|p] eqn:Es; [change (2 ^ 0) with 1; lia | | lia].
      apply Z.shiftl_mul_pow2. lia.
    - rewrite Hm.
      replace (n * 2 ^ (- e') * (n * 2 ^ (- e'))) with (n * n * (2 ^ (- e') * 2 ^ (- e')))
        by ring.
      rewrite <- Z.mul_assoc, <- !Z.pow_add_r by lia. do 2 f_equal. unfold s. lia. }
  rewrite Hm'.
  assert (HPe : 0 < 2 ^ (- e')) by (apply Z.pow_pos_nonneg; lia).
  set (q := n * 2 ^ (- e')) in *.
  pose proof (Z.sqrtrem_spec (q * q) ltac:(nia)) as Hspec.
  pose proof (Z.sqrtrem_sqrt (q * q)) as Hsq.
  destruct (Z.sqrtrem (q * q)) as [q0 r]. cbn [fst] in Hsq.
  rewrite Z.sqrt_square in Hsq by nia. subst q0.
  assert (r = 0) by lia. subst r. cbn [Z.eqb].
  (* [q] is aligned at [e']: rounding it is rounding [n] *)
  destruct q as [|qp|qp] eqn:Eq; try nia.
  assert (Hdq : Zdigits2 (Zpos qp) = dn + - e').
  { apply Zdigits2_unique; [lia|]. rewrite <- Eq. unfold q. split.
    - replace (dn + - e' - 1) with (dn - 1 + - e') by lia.
      rewrite Z.pow_add_r by lia. nia.
    - rewrite Z.pow_add_r by lia. nia. }
  transitivity (binary_round JS.prec JS.emax false qp (0 - - e')).
  - unfold binary_round, shl_align.
    replace (0 - - e') with e' by lia.
    change (Zpos (digits2_pos qp)) with (Zdigits2 (Zpos qp)). rewrite Hdq.
    replace (dn + - e' + e') with dn by lia.
    destruct (fexp JS.prec JS.emax dn - e') eqn:F; try reflexivity. lia.
  - destruct n as [|np|np]; try lia.
    rewrite (binary_round_shift false np qp 0 (- e')); [reflexivity | lia | now rewrite <- Eq].
Qed.

Lemma of_Z_nonzero z :
  z <> 0 -> Z.abs z < 2 ^ 53 -> JS.eq (JS.of_Z z) zero = false.
Proof.
  intros Hz Hb. destruct (of_Z_shape z Hz Hb) as (m & k & _ & _ & -> & _).
  destruct (z <? 0); reflexivity.
Qed.

(** [/mod] on integers: operands that are the doubles of integers within
    [2^53 - 1] in magnitude, the second not zero, get 200 with the double of
    the integer remainder, which takes the sign of the dividend; a zero
    remainder of a negative dividend is [-0]. *)
Theorem integer_remainder req st a b :
  Z.abs a <= 2 ^ 53 - 1 ->
  Z.abs b <= 2 ^ 53 - 1 ->
  b <> 0 ->
  operand "num1" req = JS.of_Z a ->
  operand "num2" req = JS.of_Z b ->
  fst (get_mod req st) =
  {| status := 200;
     body := JResult (if (Z.rem a b =? 0) && (a <? 0) then JS.neg_zero
                      else JS.of_Z (Z.rem a b)) |}.
Proof.
  intros Ha Hb Hb0 E1 E2.
  destruct (of_Z_in_range a Ha) as [Na Ra]. destruct (of_Z_in_range b Hb) as [Nb Rb].
  rewrite get_mod_response. cbv zeta. rewrite E1, E2.
  rewrite handleErrors_past_rule3.
  - cbn [String.eqb Ascii.eqb Bool.eqb fst loose_eq Z.eqb].
    rewrite rem_of_Z by lia. reflexivity.
  - unfold not_a_number. now rewrite Na, Nb.
  - cbn [String.eqb Ascii.eqb Bool.eqb orb andb]. apply of_Z_nonzero; lia.
  - now rewrite Ra, Rb.
Qed.

Lemma integer_remainder_witness :
  let req := {| query := [("num1", QString "-10"); ("num2", QString "3")] |} in
  fst (get_mod req listening) =
  {| status := 200; body := JResult (JS.parseFloat_string "-1") |}.
Proof.
  cbv zeta.
  rewrite (integer_remainder
             {| query := [("num1", QString "-10"); ("num2", QString "3")] |}
             listening (-10) 3);
    [reflexivity | vm_compute; discriminate | vm_compute; discriminate | discriminate
    | reflexivity | reflexivity].
Defined.

(** [/sqrt] on squares: the double of [n * n], for an integer [n] that is
    not negative and whose square is within [2^53 - 1], gets 200 with the
    double of [n]. *)
Theorem root_of_square req st n :
  0 <= n ->
  n * n <= 2 ^ 53 - 1 ->
  operand "num1" req = JS.of_Z (n * n) ->
  fst (get_sqrt req st) = {| status := 200; body := JResult (JS.of_Z n) |}.
Proof.
  intros Hn Hb E1.
  destruct (of_Z_in_range (n * n) ltac:(nia)) as [Nn Rn].
  rewrite get_sqrt_response. cbv zeta. rewrite E1.
  assert (Hpos : JS.lt (JS.of_Z (n * n)) zero = false).
  { destruct (Z.eq_dec n 0) as [->|Hz]; [reflexivity|].
    destruct (of_Z_shape (n * n) ltac:(nia) ltac:(nia)) as (m & k & _ & _ & -> & _).
    replace (n * n <? 0) with false by (symmetry; apply Z.ltb_ge; nia). reflexivity. }
  rewrite handleErrors_past_rule3;
    [| unfold not_a_number; now rewrite Nn | reflexivity | now rewrite Rn ].
  cbn [String.eqb Ascii.eqb Bool.eqb]. rewrite Hpos.
  cbn [fst loose_eq]. unfold send_json, status_json. do 2 f_equal.
  destruct (Z.eq_dec n 0) as [->|Hz]; [reflexivity|].
  apply sqrt_of_square; lia.
Qed.

Lemma root_of_square_witness :
  fst (get_sqrt {| query := [("num1", QString "144")] |} listening) =
  {| status := 200; body := JResult (JS.parseFloat_string "12") |}.
Proof.
  rewrite (root_of_square {| query := [("num1", QString "144")] |} listening 12);
    [reflexivity | lia | vm_compute; discriminate | reflexivity].
Defined.
